(** * coachsim: the coaching concept simulator, embedded and verified

    Shallow embedding of [src/coach_sim/src/App.jsx] (signal synthesis loop,
    coaching policy, start/stop/reset, CSV export, the draggable sensor
    layout) and of the canvas stand-in for the 3D engine
    ([WebGLRenderer.render]).

    Conventions of the embedding.
    - A JavaScript number is an exact rational ([Q]).  Every number the
      simulator handles is a finite double; the rounding of its arithmetic
      is not modelled.  The numeric properties are stated so that rounding
      does not decide them: clamp ranges and other order facts that
      rounding to nearest preserves, threshold comparisons with a margin,
      and values at draws where the arithmetic is exact.  The sample
      counter [t] and the elapsed time are integers ([Z]).
    - A JavaScript string is a [string] (the bytes of its UTF-8 form).
    - [Math.random] is an oracle: an infinite supply of draws [nat -> Q]
      read through a cursor, threaded by the [Rand] monad.
    - React state is one record; every handler or effect is a function
      from state to state. *)

From Stdlib Require Import ZArith QArith Qabs Qround String Ascii List Lia.
From Stdlib Require DecimalString HexadecimalString.
From stdpp Require Import base list strings.
Import ListNotations.

Local Open Scope Q_scope.
Local Open Scope string_scope.
Local Open Scope list_scope.

(** ** JavaScript primitives used by the program *)
Module JS.

(** [a > b] and [a < b] on numbers. *)
Definition gtb (a b : Q) : bool := negb (Qle_bool a b).
Definition ltb (a b : Q) : bool := negb (Qle_bool b a).

(** Truthiness of a number: anything but zero. *)
Definition truthy (a : Q) : bool := negb (Qeq_bool a 0).

(** [Math.max(a, b)] and [Math.min(a, b)]: the running extreme is replaced
    when the next argument is strictly beyond it. *)
Definition Math_max (a b : Q) : Q := if gtb b a then b else a.
Definition Math_min (a b : Q) : Q := if ltb b a then b else a.

Definition Math_abs (a : Q) : Q := Qabs a.

(** [Math.round(x)]: the integer nearest to [x], ties towards +infinity. *)
Definition Math_round (x : Q) : Z := Qfloor (x + (1 # 2)).

(** Decimal text of an integer, as [String(n)] gives it. *)
Definition string_of_N (n : N) : string :=
  DecimalString.NilZero.string_of_uint (N.to_uint n).

Definition string_of_Z (z : Z) : string :=
  match z with
  | Zneg p => "-" +:+ string_of_N (Npos p)
  | _ => string_of_N (Z.to_N z)
  end.

Fixpoint zeros (k : nat) : string :=
  match k with
  | O => ""
  | S k' => String "0" (zeros k')
  end.

(** [x.toFixed(f)]: the sign is taken first; the magnitude is scaled by
    [10^f] and rounded to the nearest integer [n] (the larger one on a
    tie); the digits of [n] are left-padded with zeros to [f + 1] places
    and the point is put before the last [f] of them. *)
Definition toFixed (x : Q) (f : nat) : string :=
  let neg := ltb x 0 in
  let ax := if neg then Qopp x else x in
  let n := Z.to_N (Qfloor (ax * inject_Z (10 ^ Z.of_nat f) + (1 # 2))) in
  let m := string_of_N n in
  let k := String.length m in
  let m := if Nat.leb k f then zeros (f + 1 - k) +:+ m else m in
  let k := String.length m in
  let body :=
    match f with
    | O => m
    | _ => substring 0 (k - f) m +:+ "." +:+ substring (k - f) f m
    end in
  if neg then "-" +:+ body else body.

(** [xs.join(sep)] on an array of strings. *)
Fixpoint join (sep : string) (xs : list string) : string :=
  match xs with
  | [] => ""
  | [x] => x
  | x :: rest => x +:+ sep +:+ join sep rest
  end.

(** [s.includes(p)]: [p] occurs in [s] as a contiguous substring. *)
Fixpoint includes (s p : string) : bool :=
  String.prefix p s
  || match s with
     | EmptyString => false
     | String _ s' => includes s' p
     end.

(** [arr.slice(-n)]: the last [n] elements (all of them when there are
    fewer). *)
Definition slice_last {A} (n : nat) (arr : list A) : list A :=
  drop (length arr - n) arr.

(** The line feed used by [join("\n")]. *)
Definition LF : string := String (ascii_of_nat 10) "".

End JS.

(** ** The [Math.random] oracle *)
Module Rng.

(** A computation that may call [Math.random]: it reads the supply of
    draws at the cursor and returns the advanced cursor. *)
Definition Rand (A : Type) : Type := (nat -> Q) -> nat -> A * nat.

Definition ret {A} (a : A) : Rand A := fun _ c => (a, c).

Definition bind {A B} (m : Rand A) (k : A -> Rand B) : Rand B :=
  fun o c => let '(a, c') := m o c in k a o c'.

(** One call of [Math.random()]. *)
Definition random : Rand Q := fun o c => (o c, S c).

Definition eval {A} (m : Rand A) (o : nat -> Q) (c : nat) : A := fst (m o c).

End Rng.

Notation "'draw' x <- m ; k" := (Rng.bind m (fun x => k))
  (at level 10, x name, m at level 100, k at level 200,
   format "'[v' 'draw'  x  <-  m ; '/' k ']'").

(** ** The application component [App] *)
Module App.
Import JS Rng.

(** [clamp] and [rnd] of the utilities section.  [rnd] takes the value
    returned by its one call of [Math.random()]. *)
Definition clamp (v lo hi : Q) : Q := Math_max lo (Math_min hi v).

Definition rnd_of (m v d : Q) : Q := m + (d - (5 # 10)) * 2 * v.

Definition rnd (m v : Q) : Rand Q := draw d <- random; ret (rnd_of m v d).

Record user_model := {
  name : string;
  hrRest : Q;
  rrRest : Q;
  tremorBase : Q;
  gripMax : Q;
  smoothnessBase : Q
}.

Definition defaultUserModel : user_model := {|
  name := "Demo User";
  hrRest := 72;
  rrRest := 12;
  tremorBase := 15 # 100;
  gripMax := 60;
  smoothnessBase := 7 # 10
|}.

Record sensor_set := {
  tpuForearm : bool;
  tpuBicep : bool;
  tpuShoulder : bool;
  forcePads : bool;
  imu : bool;
  ppg : bool;
  resp : bool;
  haptic : bool
}.

Record policy_params := {
  tremorWarn : Q;
  tremorRest : Q;
  smoothMin : Q;
  gripTarget : Q;
  hrCeiling : Q;
  rrCeiling : Q;
  difficulty : Q
}.

(** One record of the stream, [{t, smooth, tremor, strain, emgEnv, fsr,
    resp, grip, hr, rr}]. *)
Record sample := {
  s_t : Z;
  s_smooth : Q;
  s_tremor : Q;
  s_strain : list Q;
  s_emgEnv : Q;
  s_fsr : list Q;
  s_resp : Q;
  s_grip : Q;
  s_hr : Q;
  s_rr : Q
}.

(** One line of the event log. *)
Record note := {
  n_ts : string;
  n_mode : string;
  n_msg : string;
  n_smooth : string;
  n_tremor : string;
  n_grip : string;
  n_hr : Z;
  n_rr : Z
}.

Record state := {
  running : bool;
  time : Z;
  user : user_model;
  sensors : sensor_set;
  params : policy_params;
  stream : list sample;
  message : string;
  mode : string;
  notes : list note
}.

Definition init : state := {|
  running := false;
  time := 0;
  user := defaultUserModel;
  sensors := {| tpuForearm := true; tpuBicep := true; tpuShoulder := true;
                forcePads := true; imu := true; ppg := true; resp := true;
                haptic := true |};
  params := {| tremorWarn := 35 # 100; tremorRest := 55 # 100;
               smoothMin := 45 # 100; gripTarget := 18; hrCeiling := 120;
               rrCeiling := 20; difficulty := 1 |};
  stream := [];
  message := "Coach idle. Press Start.";
  mode := "IDLE";
  notes := []
|}.

(** *** Signal synthesis *)

(** What the interval callback sees of the component: the values its
    effect closed over when it was last set up.  The effect is set up again
    when [running], [params.difficulty], [sensors.forcePads], [mode] or
    [user] changes, so the other fields it reads (such as
    [params.gripTarget]) may lag behind the state. *)
Record closure := {
  c_user : user_model;
  c_params : policy_params;
  c_sensors : sensor_set;
  c_mode : string
}.

Definition capture (st : state) : closure :=
  {| c_user := user st; c_params := params st; c_sensors := sensors st;
     c_mode := mode st |}.

Definition next_t (arr : list sample) : Z :=
  match last arr with
  | Some r => (s_t r + 1)%Z
  | None => 0%Z
  end.

(** The record built by one run of the [setStream] updater. *)
Definition synth_sample (cl : closure) (arr : list sample) : Rand sample :=
  let u := c_user cl in
  let p := c_params cl in
  let t := next_t arr in
  draw r1 <- rnd (smoothnessBase u) (15 # 100);
  let smooth := clamp (r1 * difficulty p) 0 1 in
  draw r2 <- rnd (tremorBase u) (2 # 10);
  let tremor := clamp (r2 * ((115 # 100) - smooth)) 0 1 in
  draw r3 <- rnd (46 # 100) (8 # 100);
  draw r4 <- rnd (52 # 100) (8 # 100);
  draw r5 <- rnd (58 # 100) (8 # 100);
  let strain := [clamp r3 0 1; clamp r4 0 1; clamp r5 0 1] in
  draw r6 <- rnd (35 # 100) (12 # 100);
  let emgEnv :=
    clamp (r6 * (if ltb smooth (55 # 100) then 12 # 10 else 9 # 10)) 0 1 in
  draw r7 <- rnd (gripTarget p) 6;
  let grip :=
    clamp (r7 * (if forcePads (c_sensors cl) then 1 else 0)
              * (if String.eqb (c_mode cl) "REST" then 6 # 10 else 1))
          0 (gripMax u) in
  draw r8 <- rnd 4 2;
  draw r9 <- rnd 3 2;
  draw r10 <- rnd 16 6;
  let fsr := [clamp (grip * (45 # 100) + r8) 0 (gripMax u / 2);
              clamp (grip * (35 # 100) + r9) 0 (gripMax u / 2);
              clamp r10 0 45] in
  draw r11 <- rnd (hrRest u
              + difficulty p * 25 * (if ltb smooth (55 # 100) then 1 else 6 # 10))
             4;
  let hr := clamp r11 50 200 in
  draw r12 <- rnd (rrRest u + (hr - hrRest u) / 20) (14 # 10);
  let rr := clamp r12 6 35 in
  draw r13 <- rnd (55 # 100) (1 # 10);
  let resp := clamp (r13 * (rr / 18)) 0 (12 # 10) in
  ret {| s_t := t; s_smooth := smooth; s_tremor := tremor;
         s_strain := strain; s_emgEnv := emgEnv; s_fsr := fsr;
         s_resp := resp; s_grip := grip; s_hr := hr; s_rr := rr |}.

(** The [setStream] updater: [[...arr.slice(-180), rec]]. *)
Definition synth_stream (cl : closure) (arr : list sample)
  : Rand (list sample) :=
  draw rec <- synth_sample cl arr;
  ret (slice_last 180 arr ++ [rec]).

(** One firing of the interval: [setTime(t => t + 1)] and the stream
    update. *)
Definition tick (cl : closure) (st : state) : Rand state :=
  draw arr <- synth_stream cl (stream st);
  ret {| running := running st; time := (time st + 1)%Z; user := user st;
         sensors := sensors st; params := params st; stream := arr;
         message := message st; mode := mode st; notes := notes st |}.

(** [n] firings in a row under one closure: the loop as long as the
    effect is not set up again. *)
Fixpoint synth_loop (n : nat) (cl : closure) (arr : list sample)
  : Rand (list sample) :=
  match n with
  | O => ret arr
  | S n' => draw arr' <- synth_stream cl arr; synth_loop n' cl arr'
  end.

(** *** Coaching policy *)

(** The rule engine of the policy effect, for the latest sample [last]:
    the pair of [nextMode] and [coach] as they stand when [setMode] and
    [setMessage] are called. *)
Definition policy_decide (sn : sensor_set) (p : policy_params)
    (run : bool) (cur : string) (last : sample) : string * string :=
  let nextMode := cur in
  let coach := "" in
  let '(nextMode, coach) :=
    if (ppg sn && gtb (s_hr last) (hrCeiling p))
       || (resp sn && gtb (s_rr last) (rrCeiling p))
    then ("REST", "Heart/resp high — pause and breathe")
    else if tpuForearm sn && gtb (s_tremor last) (tremorRest p)
    then ("REST", "Tremor elevated — guided rest")
    else if run
    then ("COACHING",
          if ltb (s_smooth last) (smoothMin p)
          then "Slow down, lengthen exhale"
          else if gtb (Math_abs (s_grip last - gripTarget p)) 8
          then "Match both hands gently"
          else if gtb (s_tremor last) (tremorWarn p)
          then "Micro‑break: shake out wrist"
          else "Nice form — adding tiny challenge")
    else ("IDLE", "Coach idle. Press Start.") in
  let coach :=
    if haptic sn && negb (String.eqb nextMode "IDLE")
    then coach +:+ " • Haptic cue: 200 ms pulse"
    else coach in
  (nextMode, coach).

(** The log line written for [last]. *)
Definition make_note (now nextMode coach : string) (last : sample) : note :=
  {| n_ts := now; n_mode := nextMode; n_msg := coach;
     n_smooth := toFixed (s_smooth last) 2;
     n_tremor := toFixed (s_tremor last) 2;
     n_grip := toFixed (s_grip last) 1;
     n_hr := Math_round (s_hr last);
     n_rr := Math_round (s_rr last) |}.

(** "Log when advice changes materially or every ~15s". *)
Definition should_log (len : nat) (coach : string) : bool :=
  (len mod 15 =? 0)%nat || includes coach "pause" || includes coach "Nice".

(** One run of the policy effect; [now] is [new Date().toISOString()]. *)
Definition policy (now : string) (st : state) : state :=
  match last (stream st) with
  | None => st
  | Some l =>
      let '(nextMode, coach) :=
        policy_decide (sensors st) (params st) (running st) (mode st) l in
      {| running := running st; time := time st; user := user st;
         sensors := sensors st; params := params st; stream := stream st;
         message := coach; mode := nextMode;
         notes :=
           if should_log (length (stream st)) coach
           then notes st ++ [make_note now nextMode coach l]
           else notes st |}
  end.

(** *** Buttons and controls *)

Definition start (st : state) : state :=
  {| running := true; time := time st; user := user st;
     sensors := sensors st; params := params st; stream := stream st;
     message := message st; mode := mode st; notes := notes st |}.

Definition stop (st : state) : state :=
  {| running := false; time := time st; user := user st;
     sensors := sensors st; params := params st; stream := stream st;
     message := "Coach idle. Press Start."; mode := "IDLE";
     notes := notes st |}.

Definition reset (st : state) : state :=
  {| running := running st; time := 0; user := user st;
     sensors := sensors st; params := params st; stream := [];
     message := message st; mode := mode st; notes := [] |}.

Definition setSensors (sn : sensor_set) (st : state) : state :=
  {| running := running st; time := time st; user := user st;
     sensors := sn; params := params st; stream := stream st;
     message := message st; mode := mode st; notes := notes st |}.

Definition setParams (p : policy_params) (st : state) : state :=
  {| running := running st; time := time st; user := user st;
     sensors := sensors st; params := p; stream := stream st;
     message := message st; mode := mode st; notes := notes st |}.

(** *** The state machine *)

(** What can happen to the component.  [Tick cl] is one firing of the
    interval set up under closure [cl]; [Policy now] one run of the policy
    effect at wall-clock text [now]. *)
Inductive action :=
| Start
| Stop
| Reset
| Tick (cl : closure)
| Policy (now : string)
| SetSensors (sn : sensor_set)
| SetParams (p : policy_params).

(** The interval exists only while [running]; its closure holds the
    one user model there is. *)
Definition step (a : action) (st : state) : Rand state :=
  match a with
  | Start => ret (start st)
  | Stop => ret (stop st)
  | Reset => ret (reset st)
  | Tick cl =>
      if running st
      then tick {| c_user := user st; c_params := c_params cl;
                   c_sensors := c_sensors cl; c_mode := c_mode cl |} st
      else ret st
  | Policy now => ret (policy now st)
  | SetSensors sn => ret (setSensors sn st)
  | SetParams p => ret (setParams p st)
  end.

Fixpoint run (acts : list action) (st : state) : Rand state :=
  match acts with
  | [] => ret st
  | a :: rest => draw st' <- step a st; run rest st'
  end.

(** States the component can be in: those some sequence of actions
    reaches from the initial one, whatever [Math.random] returns. *)
Definition reachable (st : state) : Prop :=
  exists acts o c, eval (run acts init) o c = st.

(** *** The interval and the closure it holds *)

(** What happens to the mounted component: a button, a control, a run of
    the policy effect, or the interval firing. *)
Inductive event :=
| EvStart
| EvStop
| EvReset
| EvInterval
| EvPolicy (now : string)
| EvSensors (sn : sensor_set)
| EvParams (p : policy_params).







(** The three modes named by the declaration of [mode]. *)
Definition known_mode (m : string) : Prop :=
  m = "IDLE" \/ m = "COACHING" \/ m = "REST".

(** Successive records carry successive [t]. *)
Definition consecutive (arr : list sample) : Prop :=
  forall i a b, arr !! i = Some a -> arr !! S i = Some b ->
                s_t b = (s_t a + 1)%Z.

(** *** Vocabulary of the properties *)

(** The health gate and the tremor gate of the rule engine, as
    propositions over the latest sample. *)
Definition health_gate (sn : sensor_set) (p : policy_params) (l : sample)
  : Prop :=
  (ppg sn = true /\ hrCeiling p < s_hr l)
  \/ (resp sn = true /\ rrCeiling p < s_rr l).

Definition tremor_gate (sn : sensor_set) (p : policy_params) (l : sample)
  : Prop :=
  tpuForearm sn = true /\ tremorRest p < s_tremor l.

(** The window kept by the stream updater. *)
Definition window_ok (st : state) : Prop :=
  (length (stream st) <= 181)%nat /\ consecutive (stream st).

(** The ranges the synthesis clamps its main signals to. *)
Definition in_bounds (r : sample) : Prop :=
  0 <= s_smooth r <= 1
  /\ 0 <= s_tremor r <= 1
  /\ 0 <= s_grip r <= 60
  /\ 50 <= s_hr r <= 200
  /\ 6 <= s_rr r <= 35.


(** *** Sample runs, used to exercise the properties *)

(** [Math.random] stuck at one value. *)
Definition const_oracle (d : Q) : nat -> Q := fun _ => d.

(** Start, then one tick with every draw at the middle of its range. *)
Definition demo_state : state :=
  Eval vm_compute in
    eval (run [Start; Tick (capture init)] init) (const_oracle (1 # 2)) 0.

Definition demo_sample : sample :=
  Eval vm_compute in
    eval (synth_sample (capture init) []) (const_oracle (1 # 2)) 0.

(** The same tick with every draw at the bottom of its range. *)
Definition demo_sample_low : sample :=
  Eval vm_compute in
    eval (synth_sample (capture init) []) (const_oracle 0) 0.




(** A running state with a longer stream, another mode and a non-empty
    log, whose latest record is again [demo_sample]. *)
Definition demo_state_other : state :=
  {| running := true; time := 7; user := defaultUserModel;
     sensors := sensors init; params := params init;
     stream := [demo_sample_low; demo_sample];
     message := "Tremor elevated — guided rest";
     mode := "REST";
     notes := [make_note "2025-01-01T00:00:00.000Z" "REST"
                 "Tremor elevated — guided rest" demo_sample_low] |}.

End App.

(** ** The sensor-layout editor [LayoutPane] *)
Module LayoutPane.

(** A marker [{id, x, y}]. *)
Record point := { p_id : string; p_x : Q; p_y : Q }.

(** The content of the [dragging] ref while a marker is held. *)
Record drag := { d_id : string; ox : Q; oy : Q }.

Record mouse_event := { clientX : Q; clientY : Q }.

(** The [points] state and the [dragging] ref. *)
Record pane := { points : list point; dragging : option drag }.

Definition init : pane := {|
  points := [ {| p_id := "shoulder"; p_x := 110; p_y := 70 |};
              {| p_id := "bicep"; p_x := 170; p_y := 90 |};
              {| p_id := "forearm"; p_x := 260; p_y := 150 |};
              {| p_id := "wrist"; p_x := 330; p_y := 200 |};
              {| p_id := "imu"; p_x := 210; p_y := 120 |};
              {| p_id := "ppg"; p_x := 140; p_y := 130 |};
              {| p_id := "resp"; p_x := 80; p_y := 110 |} ];
  dragging := None
|}.

Definition onDown (id : string) (e : mouse_event) (pn : pane) : pane :=
  {| points := points pn;
     dragging := Some {| d_id := id; ox := clientX e; oy := clientY e |} |}.

(** The updater given to [setPoints]. *)
Definition move_point (id : string) (dx dy : Q) (p : point) : point :=
  if String.eqb (p_id p) id
  then {| p_id := p_id p; p_x := p_x p + dx; p_y := p_y p + dy |}
  else p.

Definition onMove (e : mouse_event) (pn : pane) : pane :=
  match dragging pn with
  | None => pn
  | Some d =>
      let dx := clientX e - ox d in
      let dy := clientY e - oy d in
      {| points := map (move_point (d_id d) dx dy) (points pn);
         dragging :=
           Some {| d_id := d_id d; ox := clientX e; oy := clientY e |} |}
  end.

Definition onUp (pn : pane) : pane :=
  {| points := points pn; dragging := None |}.

(** Mouse events reaching the pane: a press on the marker called [id], a
    move or a release anywhere in the window. *)
Inductive event :=
| Down (id : string) (e : mouse_event)
| Move (e : mouse_event)
| Up.

Definition handle (ev : event) (pn : pane) : pane :=
  match ev with
  | Down id e => onDown id e pn
  | Move e => onMove e pn
  | Up => onUp pn
  end.

Definition handle_all (evs : list event) (pn : pane) : pane :=
  fold_left (fun acc ev => handle ev acc) evs pn.

Definition reachable (pn : pane) : Prop :=
  exists evs, handle_all evs init = pn.

(** A short drag of the wrist marker: press at (330, 200), move to
    (335, 190). *)
Definition demo_drag : pane :=
  onDown "wrist" {| clientX := 330; clientY := 200 |} init.

Definition demo_move : mouse_event := {| clientX := 335; clientY := 190 |}.

End LayoutPane.

(** ** The CSV exporter [exportCSV] *)
Module Csv.
Import JS.

(** A value held by a row: a string, or an integer-valued number. *)
Inductive value :=
| VStr (s : string)
| VNum (n : Z).

(** The text [join] puts for an element. *)
Definition to_text (v : value) : string :=
  match v with
  | VStr s => s
  | VNum n => string_of_Z n
  end.

(** A row object: its own properties in insertion order. *)
Definition row := list (string * value).

Definition Object_keys (r : row) : list string := map fst r.
Definition Object_values (r : row) : list value := map snd r.

(** What the click on the generated link hands to the browser. *)
Record download := {
  d_filename : string;
  d_type : string;
  d_text : string
}.

Definition header_of (rows : list row) : string :=
  join "," (Object_keys (match rows with r :: _ => r | [] => [] end)).

Definition line_of (r : row) : string :=
  join "," (map to_text (Object_values r)).

Definition exportCSV (rows : list row) (filename : string) : download :=
  let header := header_of rows in
  let lines := map line_of rows in
  let csv := join LF (header :: lines) in
  {| d_filename := filename; d_type := "text/csv;charset=utf-8;";
     d_text := csv |}.

Definition default_filename : string := "coaching_log.csv".

(** The row object of a log line, as the policy effect builds it. *)
Definition row_of_note (n : App.note) : row :=
  [ ("ts", VStr (App.n_ts n)); ("mode", VStr (App.n_mode n));
    ("msg", VStr (App.n_msg n)); ("smooth", VStr (App.n_smooth n));
    ("tremor", VStr (App.n_tremor n)); ("grip", VStr (App.n_grip n));
    ("hr", VNum (App.n_hr n)); ("rr", VNum (App.n_rr n)) ].

(** The export button: [notes.length && exportCSV(notes)]. *)
Definition onExport (st : App.state) : option download :=
  match App.notes st with
  | [] => None
  | ns => Some (exportCSV (map row_of_note ns) default_filename)
  end.

(** *** Vocabulary of the properties *)

(** The strings of a list put end to end. *)
Fixpoint flatten (xs : list string) : string :=
  match xs with
  | [] => ""
  | x :: rest => x +:+ flatten rest
  end.

(** The lines of a text: the pieces between its line feeds. *)
Fixpoint lines_of (s : string) : list string :=
  match s with
  | EmptyString => [""]
  | String a s' =>
      if Ascii.eqb a (ascii_of_nat 10)
      then "" :: lines_of s'
      else match lines_of s' with
           | [] => [String a ""]
           | x :: xs => String a x :: xs
           end
  end.

Fixpoint has_LF (s : string) : bool :=
  match s with
  | EmptyString => false
  | String a s' => Ascii.eqb a (ascii_of_nat 10) || has_LF s'
  end.

(** No key and no value text of the row holds a line feed. *)
Definition one_line_row (r : row) : bool :=
  forallb (fun kv => negb (has_LF (fst kv)) && negb (has_LF (to_text (snd kv)))) r.

(** An action whose timestamp, if it has one, holds no line feed (an ISO
    date never does). *)
Definition plain_action (a : App.action) : Prop :=
  match a with
  | App.Policy now => has_LF now = false
  | _ => True
  end.

(** Every line of the log gives a row of one-line cells. *)
Definition one_line_log (st : App.state) : Prop :=
  forallb one_line_row (map row_of_note (App.notes st)) = true.

(** The log after one policy step on the sample run. *)
Definition demo_rows : list row :=
  Eval vm_compute in
    map row_of_note
      (App.notes (App.policy "2025-01-01T00:00:00.000Z" App.demo_state)).

End Csv.

(** ** The canvas stand-in for the 3D engine *)
Module Three.
Import JS.

Record Vector3 := { v_x : Q; v_y : Q; v_z : Q }.
Record Euler := { e_x : Q; e_y : Q; e_z : Q }.

Record BoxGeometry := { width : Q; height : Q; depth : Q }.

(** [color] is absent when the material was given a nullish one. *)
Record MeshStandardMaterial := { color : option N; roughness : Q }.

(** What [obj instanceof Mesh] tells apart: a [Mesh] with its (possibly
    missing) geometry and material, or any other [Object3D] (group, scene,
    camera, light, grid helper). *)
Inductive kind :=
| KMesh (geometry : option BoxGeometry) (material : option MeshStandardMaterial)
| KOther.

#[local] Unset Elimination Schemes.
Inductive Object3D :=
| Obj (k : kind) (position : Vector3) (rotation : Euler) (visible : bool)
      (children : list Object3D).
#[local] Set Elimination Schemes.

Definition kind_of (o : Object3D) : kind :=
  match o with Obj k _ _ _ _ => k end.
Definition position (o : Object3D) : Vector3 :=
  match o with Obj _ p _ _ _ => p end.
Definition rotation (o : Object3D) : Euler :=
  match o with Obj _ _ r _ _ => r end.
Definition visible (o : Object3D) : bool :=
  match o with Obj _ _ _ v _ => v end.
Definition children (o : Object3D) : list Object3D :=
  match o with Obj _ _ _ _ ch => ch end.

(** A number passed to the canvas: a plain one, or a cosine the program
    asks [Math.cos] for. *)
Inductive num :=
| Lit (q : Q)
| Cos (q : Q).

(** Calls made on the [CanvasRenderingContext2D]. *)
Inductive call :=
| clearRect (x y w h : Q)
| save
| restore
| translate (x y : Q)
| rotate (a : Q)
| scale (sx sy : num)
| set_fillStyle (s : string)
| set_strokeStyle (s : string)
| set_lineWidth (w : Q)
| beginPath
| roundRect (x y w h r : Q)
| fill
| stroke.

Definition hex_of_N (n : N) : string :=
  HexadecimalString.NilZero.string_of_uint (N.to_hex_uint n).

(** [s.padStart(6, "0")]. *)
Definition padStart6 (s : string) : string :=
  zeros (6 - String.length s) +:+ s.

Definition colorToCss (hex : N) : string := "#" +:+ padStart6 (hex_of_N hex).

(** [a || b] on numbers. *)
Definition or_default (a : option Q) (b : Q) : Q :=
  match a with
  | Some q => if truthy q then q else b
  | None => b
  end.

(** The body of [if (obj instanceof Mesh) { ... }]. *)
Definition draw_mesh (g : option BoxGeometry) (m : option MeshStandardMaterial)
  : list call :=
  let w := or_default (option_map width g) 1 * 60 in
  let h := or_default (option_map height g) 1 * 60 in
  [ set_fillStyle
      (colorToCss (match m with
                   | Some mt => match color mt with
                                | Some c => c
                                | None => 8947848%N
                                end
                   | None => 8947848%N
                   end));
    set_strokeStyle "rgba(15,23,42,0.15)";
    set_lineWidth 2;
    beginPath;
    roundRect (- w / 2) (- h / 2) w h 6;
    fill;
    stroke ].

(** The calls placing an object: translation, then the three optional
    rotation stand-ins. *)
Definition place (p : Vector3) (r : Euler) : list call :=
  [translate (v_x p * 60) (- v_y p * 60 + v_z p * 5)]
  ++ (if truthy (e_z r) then [rotate (e_z r)] else [])
  ++ (if truthy (e_x r) then [scale (Lit 1) (Cos (e_x r))] else [])
  ++ (if truthy (e_y r) then [scale (Cos (e_y r)) (Lit 1)] else []).

(** The local function [drawObject] of [render]; the result is the
    sequence of calls it makes on the context. *)
Fixpoint drawObject (obj : Object3D) : list call :=
  match obj with
  | Obj k p r vis ch =>
      if negb vis then []
      else
        [save] ++ place p r
        ++ match k with
           | KMesh g m => draw_mesh g m
           | KOther => []
           end
        ++ concat (map drawObject ch)
        ++ [restore]
  end.

(** The renderer: the size of its canvas, and whether [getContext("2d")]
    gave a context. *)
Record WebGLRenderer := {
  dom_width : Q;
  dom_height : Q;
  has_ctx : bool
}.

(** [render(scene, camera)]: the calls made on the context.  The camera
    is not read. *)
Definition render (rd : WebGLRenderer) (scene : Object3D) : list call :=
  if negb (has_ctx rd) then []
  else
    [clearRect 0 0 (dom_width rd) (dom_height rd);
     save;
     translate (dom_width rd / 2) (dom_height rd * (6 # 10))]
    ++ concat (map drawObject (children scene))
    ++ [restore].

(** *** Vocabulary of the properties *)

(** [shown_in root o]: [o] lies below [root], and [o] and every object
    between [root] and [o] are visible. *)
Inductive shown_in (root : Object3D) : Object3D -> Prop :=
| shown_child c :
    In c (children root) -> visible c = true -> shown_in root c
| shown_deeper p c :
    shown_in root p -> In c (children p) -> visible c = true ->
    shown_in root c.

(** [l] occurs in [log] as a run of successive calls. *)
Definition occurs (l log : list call) : Prop :=
  exists pre post, log = pre ++ l ++ post.

Definition is_roundRect (c : call) : bool :=
  match c with roundRect _ _ _ _ _ => true | _ => false end.

(** Structural induction on the object tree, the hypothesis covering
    every child. *)
Fixpoint Object3D_ind (P : Object3D -> Prop)
    (step : forall k p r v ch, Forall P ch -> P (Obj k p r v ch))
    (o : Object3D) : P o :=
  match o with
  | Obj k p r v ch =>
      step k p r v ch
        ((fix all (l : list Object3D) : Forall P l :=
            match l with
            | [] => @List.Forall_nil _ P
            | x :: xs =>
                @List.Forall_cons _ P x xs (Object3D_ind P step x) (all xs)
            end) ch)
  end.

(** *** A sample scene *)

Definition origin : Vector3 := {| v_x := 0; v_y := 0; v_z := 0 |}.
Definition no_rotation : Euler := {| e_x := 0; e_y := 0; e_z := 0 |}.

Definition demo_mesh (c : N) (vis : bool) : Object3D :=
  Obj (KMesh (Some {| width := 1; height := 1 # 2; depth := 1 |})
             (Some {| color := Some c; roughness := 1 # 2 |}))
      origin no_rotation vis [].

(** A scene with a visible group holding a visible blue mesh, and a
    hidden group holding an orange mesh that is itself flagged visible. *)
Definition demo_scene : Object3D :=
  Obj KOther origin no_rotation true
    [ Obj KOther {| v_x := 1; v_y := 0; v_z := 0 |} no_rotation true
        [demo_mesh 959977 true];
      Obj KOther origin no_rotation false
        [demo_mesh 16347926 true] ].

(** A scene whose own flag is off, holding one visible mesh. *)
Definition hidden_scene : Object3D :=
  Obj KOther origin no_rotation false [demo_mesh 959977 true].

Definition demo_renderer : WebGLRenderer :=
  {| dom_width := 640; dom_height := 360; has_ctx := true |}.

End Three.

From Stdlib Require Import Lqa.
From Stdlib Require HexadecimalN.

(** ** Further vocabulary for the application component *)
Module AppMore.
Import JS Rng App.

(** [Math.random] returns a number in the half-open interval from 0 to 1. *)
Definition unit_draws (o : nat -> Q) : Prop :=
  forall i, 0 <= o i /\ o i < 1.

(** The texts the policy effect and the stop button can put in [message]. *)
Definition idle_message : string := "Coach idle. Press Start.".
Definition haptic_cue : string := " • Haptic cue: 200 ms pulse".

Definition rest_messages : list string :=
  [ "Heart/resp high — pause and breathe";
    "Tremor elevated — guided rest" ].

Definition coaching_messages : list string :=
  [ "Slow down, lengthen exhale";
    "Match both hands gently";
    "Micro‑break: shake out wrist";
    "Nice form — adding tiny challenge" ].

Definition grip_cue : string := "Match both hands gently".
Definition praise : string := "Nice form — adding tiny challenge".

(** [msg] is one of [bases], with or without the haptic cue after it. *)
Definition with_cue (bases : list string) (msg : string) : Prop :=
  exists b, In b bases /\ (msg = b \/ msg = b +:+ haptic_cue).

(** The message shown goes with the mode shown. *)
Definition message_fits (m msg : string) : Prop :=
  (m = "IDLE" /\ msg = idle_message)
  \/ (m = "REST" /\ with_cue rest_messages msg)
  \/ (m = "COACHING" /\ with_cue coaching_messages msg).

(** The coaching branch finds nothing to correct in the sample. *)
Definition good_form (p : policy_params) (l : sample) : Prop :=
  ~ s_smooth l < smoothMin p
  /\ ~ 8 < Qabs (s_grip l - gripTarget p)
  /\ ~ tremorWarn p < s_tremor l.

(** The cases in which the policy effect writes a log line: every
    fifteenth stream length, a health stop, or praise. *)
Definition logs_line (sn : sensor_set) (p : policy_params) (rn : bool)
    (len : nat) (l : sample) : Prop :=
  (len mod 15 = 0)%nat
  \/ health_gate sn p l
  \/ (~ health_gate sn p l /\ ~ tremor_gate sn p l /\ rn = true
      /\ good_form p l).

(** The policy step at [now] adds a line to the log. *)
Definition appends_line (now : string) (st : state) : Prop :=
  exists n, notes (policy now st) = notes st ++ [n].

(** The elapsed time counts the records made since the last reset, of
    which the stream keeps the latest 181, numbered in sequence. *)
Definition clock_ok (st : state) : Prop :=
  (0 <= time st)%Z
  /\ length (stream st) = Z.to_nat (Z.min (time st) 181)
  /\ forall i r, stream st !! i = Some r ->
       s_t r = (time st - Z.of_nat (length (stream st)) + Z.of_nat i)%Z.

(** The ranges the synthesis clamps its secondary channels to. *)
Definition channels_in_bounds (r : sample) : Prop :=
  (exists a b c, s_strain r = [a; b; c]
     /\ 0 <= a <= 1 /\ 0 <= b <= 1 /\ 0 <= c <= 1)
  /\ 0 <= s_emgEnv r <= 1
  /\ (exists a b c, s_fsr r = [a; b; c]
        /\ 0 <= a <= 30 /\ 0 <= b <= 30 /\ 0 <= c <= 45)
  /\ 0 <= s_resp r <= 12 # 10.

(** A closure differing from that of the initial state by its parameters
    and sensor toggles only. *)
Definition closure_with (p : policy_params) (sn : sensor_set) (md : string)
  : closure :=
  {| c_user := defaultUserModel; c_params := p; c_sensors := sn;
     c_mode := md |}.

(** Fifteen ticks at low difficulty, with every draw at the bottom of its
    range, then one policy step: the coach asks to slow down. *)
Definition slow_params : policy_params :=
  {| tremorWarn := 35 # 100; tremorRest := 55 # 100; smoothMin := 45 # 100;
     gripTarget := 18; hrCeiling := 120; rrCeiling := 20;
     difficulty := 6 # 10 |}.

Definition slow_state : state :=
  Eval vm_compute in
    eval (run ([SetParams slow_params; Start]
               ++ repeat (Tick (closure_with slow_params (sensors init) "IDLE")) 15
               ++ [Policy "2025-01-01T00:00:15.000Z"])
              init)
         (const_oracle 0) 0.

(** More than three minutes of running: 185 ticks from the initial
    state, every draw in the middle of its range. *)
Definition full_state : state :=
  Eval vm_compute in
    eval (run (Start :: repeat (Tick (capture init)) 185) init)
         (const_oracle (1 # 2)) 0.

End AppMore.

(** ** The traces and pads drawn over the layout, [TPUTrace] *)
Module TPUTrace.
Import LayoutPane.

(** [points.find((p) => p.id === id)]. *)
Definition find_point (id : string) (points : list point) : option point :=
  List.find (fun p => String.eqb (p_id p) id) points.

Definition order : list string := ["shoulder"; "bicep"; "forearm"; "wrist"].

(** [order.map((id) => points.find(...)).filter(Boolean)]: the markers of
    the polyline, those not found being dropped. *)
Definition vertices (points : list point) : list point :=
  omap (fun id => find_point id points) order.

(** The [points] attribute of the polyline.  [show] is the text a template
    literal gives for a number. *)
Definition coords (show : Q -> string) (points : list point) : string :=
  JS.join " "
    (map (fun p => show (p_x p) +:+ "," +:+ show (p_y p)) (vertices points)).

(** [points.find((p) => p.id === id)?.x || dflt], for either coordinate. *)
Definition coord_or (f : point -> Q) (id : string) (dflt : Q)
    (points : list point) : Q :=
  match find_point id points with
  | Some p => if JS.truthy (f p) then f p else dflt
  | None => dflt
  end.

(** The corner of the IMU puck and of the PPG patch, the centre of the
    grip pad and of the stance pad. *)
Definition imu_rect (points : list point) : Q * Q :=
  (coord_or p_x "imu" 210 points - 12, coord_or p_y "imu" 120 points - 12).

Definition grip_pad (points : list point) : Q * Q :=
  (coord_or p_x "wrist" 330 points, coord_or p_y "wrist" 210 points).

Definition stance_pad (points : list point) : Q * Q :=
  (coord_or p_x "forearm" 260 points - 30,
   coord_or p_y "forearm" 150 points + 30).

Definition ppg_rect (points : list point) : Q * Q :=
  (coord_or p_x "ppg" 140 points - 12, coord_or p_y "ppg" 130 points - 8).

(** The seven markers' ids, in the order of the initial layout. *)
Definition marker_ids : list string :=
  ["shoulder"; "bicep"; "forearm"; "wrist"; "imu"; "ppg"; "resp"].

(** A whole gesture: a press on marker [id] at [e0], the moves [es], the
    release, and then the moves [stray] with no button held. *)
Definition gesture (id : string) (e0 : mouse_event)
    (es stray : list mouse_event) : list event :=
  Down id e0 :: map Move es ++ Up :: map Move stray.

(** The wrist marker dragged to the left edge: press at (330, 200), move
    to (0, 200), release. *)
Definition wrist_at_edge : pane :=
  handle_all
    (gesture "wrist" {| clientX := 330; clientY := 200 |}
       [{| clientX := 100; clientY := 180 |}; {| clientX := 0; clientY := 200 |}]
       [{| clientX := 50; clientY := 50 |}])
    init.

End TPUTrace.

(** ** Further vocabulary for the CSV exporter *)
Module CsvMore.
Import JS Csv.

(** The number of commas of a text: one less than the number of fields a
    reader of the file finds on that line. *)
Fixpoint commas (s : string) : nat :=
  match s with
  | EmptyString => 0
  | String a s' => (if Ascii.eqb a "," then 1 else 0) + commas s'
  end.

(** The export of the log of [AppMore.slow_state], whose one line carries
    the message "Slow down, lengthen exhale". *)
Definition slow_rows : list row :=
  Eval vm_compute in map row_of_note (App.notes AppMore.slow_state).

End CsvMore.

(** ** The rest of the canvas stand-in: [Object3D.add], [Color], the
    animation loop *)
Module ThreeMore.
Import JS Three.

(** [parent.add(child)]: the child is pushed after the others. *)
Definition add (parent child : Object3D) : Object3D :=
  match parent with
  | Obj k p r v ch => Obj k p r v (ch ++ [child])
  end.

(** The depth of the canvas state stack after a run of calls started at
    depth [d]; [None] when a [restore] finds no saved state of the run. *)
Fixpoint depth_after (calls : list call) (d : nat) : option nat :=
  match calls with
  | [] => Some d
  | save :: rest => depth_after rest (S d)
  | restore :: rest =>
      match d with
      | O => None
      | S d' => depth_after rest d'
      end
  | _ :: rest => depth_after rest d
  end.

(** *** [Color] *)

(** The value of a character as a digit in base 16, in either case,
    from its code: [0-9] are 48 to 57, [A-F] 65 to 70, [a-f] 97 to 102. *)
Definition hex_val (a : ascii) : option N :=
  let c := N_of_ascii a in
  if (48 <=? c)%N && (c <=? 57)%N then Some (c - 48)%N
  else if (65 <=? c)%N && (c <=? 70)%N then Some (c - 55)%N
  else if (97 <=? c)%N && (c <=? 102)%N then Some (c - 87)%N
  else None.

(** The longest run of base-16 digits at the head of [s], read as a
    number on top of [acc]; [acc] is [None] as long as no digit was read. *)
Fixpoint hex_digits (s : string) (acc : option N) : option N :=
  match s with
  | EmptyString => acc
  | String a s' =>
      match hex_val a with
      | Some v => hex_digits s' (Some (16 * default 0 acc + v)%N)
      | None => acc
      end
  end.

(** Tab, line feed, vertical tab, form feed, carriage return, space. *)
Definition is_space (a : ascii) : bool :=
  existsb (N.eqb (N_of_ascii a)) [9; 10; 11; 12; 13; 32]%N.

Fixpoint skip_spaces (s : string) : string :=
  match s with
  | String a s' => if is_space a then skip_spaces s' else s
  | EmptyString => s
  end.

(** [parseInt(s, 16)] on a text of ASCII characters: leading white space,
    an optional sign, an optional [0x] or [0X], then the digits; [None] is
    NaN. *)
Definition parseInt16 (s : string) : option Z :=
  let s := skip_spaces s in
  let '(neg, s) :=
    match s with
    | String "-" s' => (true, s')
    | String "+" s' => (false, s')
    | _ => (false, s)
    end in
  let s :=
    match s with
    | String "0" (String "x" s') => s'
    | String "0" (String "X" s') => s'
    | _ => s
    end in
  match hex_digits s None with
  | Some n => Some (if neg then (- Z.of_N n)%Z else Z.of_N n)
  | None => None
  end.

(** Every character of [s] is a base-16 digit. *)
Fixpoint all_hex (s : string) : bool :=
  match s with
  | EmptyString => true
  | String a s' =>
      match hex_val a with Some _ => all_hex s' | None => false end
  end.

(** What a [Color] is built from, and what it holds. *)
Inductive color_arg :=
| ArgText (s : string)
| ArgNum (n : Z).

Inductive color_value :=
| NaN
| Num (n : Z)
| Text (s : string).

(** [new Color(value)], its field [value]; without an argument the value
    is [0xffffff]. *)
Definition Color (value : option color_arg) : color_value :=
  match value with
  | None => Num 16777215
  | Some (ArgText s) =>
      match s with
      | String "#" rest =>
          match parseInt16 rest with
          | Some n => Num n
          | None => NaN
          end
      | _ => Text s
      end
  | Some (ArgNum n) => Num n
  end.

Definition getHex (c : color_value) : color_value := c.

(** *** The animation loop *)

(** The browser side of [requestAnimationFrame]: the next request id and
    the callbacks waiting for the next frame.  A waiting callback is the
    [tick] closure made by [setAnimationLoop] for the loop function it was
    given; loop functions are told apart by a number. *)
Record frames := {
  next_id : nat;
  waiting : list (nat * nat)
}.

(** The renderer's [_loop] and [_frame], the browser's frame queue, and
    the loop functions called so far, latest last. *)
Record anim := {
  a_loop : option nat;
  a_frame : option nat;
  a_frames : frames;
  a_called : list nat
}.

Definition requestAnimationFrame (fn : nat) (fr : frames) : nat * frames :=
  (next_id fr,
   {| next_id := S (next_id fr); waiting := waiting fr ++ [(next_id fr, fn)] |}).

Definition cancelAnimationFrame (id : nat) (fr : frames) : frames :=
  {| next_id := next_id fr;
     waiting := List.filter (fun e => negb (Nat.eqb (fst e) id)) (waiting fr) |}.

(** [if (this._frame) cancelAnimationFrame(this._frame)]. *)
Definition cancel_pending (a : anim) : frames :=
  match a_frame a with
  | Some id => if Nat.eqb id 0 then a_frames a
               else cancelAnimationFrame id (a_frames a)
  | None => a_frames a
  end.

Definition setAnimationLoop (fn : option nat) (a : anim) : anim :=
  let fr := cancel_pending a in
  match fn with
  | Some f =>
      let '(id, fr') := requestAnimationFrame f fr in
      {| a_loop := fn; a_frame := Some id; a_frames := fr';
         a_called := a_called a |}
  | None =>
      {| a_loop := fn; a_frame := a_frame a; a_frames := fr;
         a_called := a_called a |}
  end.

(** The [tick] closure for loop function [f]: it asks for the next frame,
    then calls [f].  The loop function draws; it does not touch the loop. *)
Definition tick (f : nat) (a : anim) : anim :=
  let '(id, fr') := requestAnimationFrame f (a_frames a) in
  {| a_loop := a_loop a; a_frame := Some id; a_frames := fr';
     a_called := a_called a ++ [f] |}.

(** One frame of the browser: the callbacks waiting at its start are taken
    off the queue and run in order. *)
Definition run_frame (a : anim) : anim :=
  let batch := waiting (a_frames a) in
  let a0 := {| a_loop := a_loop a; a_frame := a_frame a;
               a_frames := {| next_id := next_id (a_frames a); waiting := [] |};
               a_called := a_called a |} in
  fold_left (fun acc e => tick (snd e) acc) batch a0.

(** [dispose()], as far as the loop goes. *)
Definition dispose (a : anim) : anim :=
  {| a_loop := a_loop a; a_frame := a_frame a; a_frames := cancel_pending a;
     a_called := a_called a |}.

Inductive anim_op :=
| SetLoop (fn : option nat)
| Frame
| Dispose.

Definition anim_step (op : anim_op) (a : anim) : anim :=
  match op with
  | SetLoop fn => setAnimationLoop fn a
  | Frame => run_frame a
  | Dispose => dispose a
  end.

Definition anim_run (ops : list anim_op) (a : anim) : anim :=
  fold_left (fun acc op => anim_step op acc) ops a.

(** A fresh renderer in a page whose request ids start at 1. *)
Definition anim_init : anim :=
  {| a_loop := None; a_frame := None;
     a_frames := {| next_id := 1; waiting := [] |}; a_called := [] |}.

(** At most one callback waits, and it is the one the renderer remembers. *)
Definition one_pending (a : anim) : Prop :=
  (0 < next_id (a_frames a))%nat
  /\ (waiting (a_frames a) = []
      \/ exists id f, waiting (a_frames a) = [(id, f)]
                      /\ a_frame a = Some id /\ a_loop a = Some f
                      /\ (0 < id < next_id (a_frames a))%nat)
  /\ (forall id, a_frame a = Some id -> (id < next_id (a_frames a))%nat).

End ThreeMore.

(** ** The pose smoothing of the 3D view, [useLerpedPose] *)
Module PoseView.

Record wrist_pose := { flexion : Q; rotation : Q; fingers : list Q }.
Record leg_pose := { knee : Q; ankle : Q }.
Record pose := { wrist : wrist_pose; leg : leg_pose }.

Definition defaultPose : pose :=
  {| wrist := {| flexion := 0; rotation := 0; fingers := [0; 0; 0] |};
     leg := {| knee := 0; ankle := 0 |} |}.

(** A target pose as the step reads it: any part may be missing. *)
Record wrist_target := {
  t_flexion : option Q;
  t_rotation : option Q;
  t_fingers : option (list Q)
}.
Record leg_target := { t_knee : option Q; t_ankle : option Q }.
Record target := { t_wrist : option wrist_target; t_leg : option leg_target }.

Definition as_target (p : pose) : target :=
  {| t_wrist := Some {| t_flexion := Some (flexion (wrist p));
                        t_rotation := Some (rotation (wrist p));
                        t_fingers := Some (fingers (wrist p)) |};
     t_leg := Some {| t_knee := Some (knee (leg p));
                      t_ankle := Some (ankle (leg p)) |} |}.

(** [lerp(a, b, k)], with [k = 0.12] when it is not given. *)
Definition lerp (a b k : Q) : Q := a + (b - a) * k.
Definition lerp_default (a b : Q) : Q := lerp a b (12 # 100).

(** [o?.f]: the field of an object that may be missing. *)
Definition chain {A B} (o : option A) (f : A -> option B) : option B :=
  match o with
  | Some a => f a
  | None => None
  end.

(** The values the step reads off the target: [t.wrist?.flexion ?? 0] and
    the like. *)
Definition goal_flexion (t : target) : Q :=
  default 0 (chain (t_wrist t) t_flexion).
Definition goal_rotation (t : target) : Q :=
  default 0 (chain (t_wrist t) t_rotation).
Definition goal_finger (t : target) (i : nat) : Q :=
  default 0 (chain (chain (t_wrist t) t_fingers)
                   (fun fs : list Q => fs !! i)).
Definition goal_knee (t : target) : Q := default 0 (chain (t_leg t) t_knee).
Definition goal_ankle (t : target) : Q := default 0 (chain (t_leg t) t_ankle).

(** The updater passed to [setPose] on every animation frame;
    [current] is [targetRef.current]. *)
Definition step (current : option target) (prev : pose) : pose :=
  let t := default (as_target defaultPose) current in
  {| wrist :=
       {| flexion := lerp_default (flexion (wrist prev)) (goal_flexion t);
          rotation := lerp_default (rotation (wrist prev)) (goal_rotation t);
          fingers :=
            imap (fun i f => lerp f (goal_finger t i) (2 # 10))
                 (fingers (wrist prev)) |};
     leg :=
       {| knee := lerp_default (knee (leg prev)) (goal_knee t);
          ankle := lerp_default (ankle (leg prev)) (goal_ankle t) |} |}.

(** [n] frames towards one target. *)
Fixpoint steps (n : nat) (current : option target) (p : pose) : pose :=
  match n with
  | O => p
  | S n' => steps n' current (step current p)
  end.



End PoseView.

(** * Properties of the coaching state machine *)
Module AppProofs.
Import JS Rng App.

Lemma gtb_lt a b : gtb a b = true <-> b < a.
Proof.
  unfold gtb. rewrite negb_true_iff.
  split; intros H.
  - apply Qnot_le_lt. intros Hle. apply Qle_bool_iff in Hle. congruence.
  - destruct (Qle_bool a b) eqn:E; [|reflexivity].
    apply Qle_bool_iff in E. exfalso. exact (Qlt_not_le _ _ H E).
Qed.

Lemma ltb_lt a b : ltb a b = true <-> a < b.
Proof. apply (gtb_lt b a). Qed.

(** The mode chosen by the rule engine never looks at the current mode. *)
Lemma policy_decide_mode sn p rn cur l :
  fst (policy_decide sn p rn cur l) =
    if (ppg sn && gtb (s_hr l) (hrCeiling p))
       || (resp sn && gtb (s_rr l) (rrCeiling p))
    then "REST"
    else if tpuForearm sn && gtb (s_tremor l) (tremorRest p)
    then "REST"
    else if rn then "COACHING" else "IDLE".
Proof.
  unfold policy_decide.
  destruct ((ppg sn && gtb (s_hr l) (hrCeiling p))
            || (resp sn && gtb (s_rr l) (rrCeiling p))); [reflexivity|].
  destruct (tpuForearm sn && gtb (s_tremor l) (tremorRest p)); [reflexivity|].
  destruct rn; reflexivity.
Qed.

Lemma policy_decide_cur sn p rn cur cur' l :
  policy_decide sn p rn cur l = policy_decide sn p rn cur' l.
Proof. reflexivity. Qed.

Lemma policy_some now st l :
  last (stream st) = Some l ->
  mode (policy now st)
    = fst (policy_decide (sensors st) (params st) (running st) (mode st) l)
  /\ message (policy now st)
    = snd (policy_decide (sensors st) (params st) (running st) (mode st) l).
Proof.
  intros Hl. unfold policy. rewrite Hl.
  destruct (policy_decide _ _ _ _ l) as [m c]. split; reflexivity.
Qed.

Lemma policy_none now st : last (stream st) = None -> policy now st = st.
Proof. intros Hl. unfold policy. rewrite Hl. reflexivity. Qed.

(** An invariant kept by every action holds along every run. *)
Lemma run_invariant (P : state -> Prop) :
  (forall a st o c, P st -> P (eval (step a st) o c)) ->
  forall acts st o c, P st -> P (eval (run acts st) o c).
Proof.
  intros Hstep acts. induction acts as [|a rest IH]; intros st o c HP.
  - exact HP.
  - unfold eval in *. simpl. unfold bind.
    specialize (Hstep a st o c HP).
    destruct (step a st o c) as [st' c'] eqn:E. simpl in Hstep.
    apply IH. exact Hstep.
Qed.

Lemma reachable_invariant (P : state -> Prop) :
  P init ->
  (forall a st o c, P st -> P (eval (step a st) o c)) ->
  forall st, reachable st -> P st.
Proof.
  intros H0 Hstep st (acts & o & c & <-).
  apply run_invariant; assumption.
Qed.

Lemma demo_state_reachable : reachable demo_state.
Proof.
  exists [Start; Tick (capture init)], (const_oracle (1 # 2)), 0%nat.
  vm_compute. reflexivity.
Qed.

Lemma tick_fields cl st o c :
  let st' := eval (tick cl st) o c in
  running st' = running st /\ user st' = user st
  /\ sensors st' = sensors st /\ params st' = params st
  /\ message st' = message st /\ mode st' = mode st
  /\ notes st' = notes st /\ time st' = (time st + 1)%Z
  /\ stream st' = eval (synth_stream cl (stream st)) o c.
Proof.
  unfold eval, tick, bind, ret. simpl.
  destruct (synth_stream cl (stream st) o c) as [arr c']. simpl.
  repeat split; reflexivity.
Qed.

(** *** The policy decision *)

Lemma health_gate_bool sn p l :
  (ppg sn && gtb (s_hr l) (hrCeiling p))
  || (resp sn && gtb (s_rr l) (rrCeiling p)) = true
  <-> health_gate sn p l.
Proof.
  unfold health_gate.
  rewrite orb_true_iff, !andb_true_iff, !gtb_lt. reflexivity.
Qed.

Lemma tremor_gate_bool sn p l :
  tpuForearm sn && gtb (s_tremor l) (tremorRest p) = true
  <-> tremor_gate sn p l.
Proof.
  unfold tremor_gate. rewrite andb_true_iff, gtb_lt. reflexivity.
Qed.

(** C1: a policy step with a latest sample present decides the next mode
    by threshold comparisons in priority order.  When the PPG sensor is
    on and hr is above hrCeiling, or the resp sensor is on and rr is above
    rrCeiling, the next mode is REST; failing that, when the tpuForearm
    sensor is on and tremor is above tremorRest, it is REST; failing both,
    it is COACHING if the simulator is running and IDLE if it is not. *)
Theorem C1_policy_priority now st l :
  last (stream st) = Some l ->
  let m' := mode (policy now st) in
  let sn := sensors st in
  let p := params st in
  (health_gate sn p l -> m' = "REST")
  /\ (~ health_gate sn p l -> tremor_gate sn p l -> m' = "REST")
  /\ (~ health_gate sn p l -> ~ tremor_gate sn p l ->
      running st = true -> m' = "COACHING")
  /\ (~ health_gate sn p l -> ~ tremor_gate sn p l ->
      running st = false -> m' = "IDLE").
Proof.
  intros Hl. cbv zeta.
  destruct (policy_some now st l Hl) as [-> _].
  rewrite policy_decide_mode.
  pose proof (health_gate_bool (sensors st) (params st) l) as Hh.
  pose proof (tremor_gate_bool (sensors st) (params st) l) as Ht.
  destruct ((ppg (sensors st) && gtb (s_hr l) (hrCeiling (params st)))
            || (resp (sensors st) && gtb (s_rr l) (rrCeiling (params st))))
    eqn:Eh.
  - assert (health_gate (sensors st) (params st) l) by (apply Hh; reflexivity).
    repeat split; intros; try reflexivity; contradiction.
  - assert (Hnh : ~ health_gate (sensors st) (params st) l)
      by (intros G; apply Hh in G; discriminate).
    destruct (tpuForearm (sensors st)
              && gtb (s_tremor l) (tremorRest (params st))) eqn:Et.
    + assert (tremor_gate (sensors st) (params st) l)
        by (apply Ht; reflexivity).
      repeat split; intros; try reflexivity; contradiction.
    + assert (Hnt : ~ tremor_gate (sensors st) (params st) l)
        by (intros G; apply Ht in G; discriminate).
      repeat split; intros; try contradiction.
      * rewrite H1. reflexivity.
      * rewrite H1. reflexivity.
Qed.

Lemma C1_policy_priority_witness :
  last (stream demo_state) = Some demo_sample
  /\ ~ health_gate (sensors demo_state) (params demo_state) demo_sample
  /\ ~ tremor_gate (sensors demo_state) (params demo_state) demo_sample
  /\ running demo_state = true
  /\ mode (policy "2025-01-01T00:00:00.000Z" demo_state) = "COACHING".
Proof.
  assert (Hl : last (stream demo_state) = Some demo_sample) by reflexivity.
  assert (Hh : ~ health_gate (sensors demo_state) (params demo_state)
                 demo_sample).
  { rewrite <- health_gate_bool. vm_compute. discriminate. }
  assert (Ht : ~ tremor_gate (sensors demo_state) (params demo_state)
                 demo_sample).
  { rewrite <- tremor_gate_bool. vm_compute. discriminate. }
  split; [exact Hl|]. split; [exact Hh|]. split; [exact Ht|].
  split; [reflexivity|].
  exact (proj1 (proj2 (proj2
           (C1_policy_priority "2025-01-01T00:00:00.000Z" demo_state
              demo_sample Hl))) Hh Ht eq_refl).
Defined.

(** *** The mode invariant *)

Lemma policy_known_mode now st :
  known_mode (mode st) -> known_mode (mode (policy now st)).
Proof.
  intros Hk. destruct (last (stream st)) as [l|] eqn:Hl.
  - destruct (policy_some now st l Hl) as [-> _].
    rewrite policy_decide_mode. unfold known_mode.
    repeat match goal with |- context [if ?b then _ else _] => destruct b end;
      auto.
  - rewrite policy_none by assumption. exact Hk.
Qed.

Lemma step_known_mode a st o c :
  known_mode (mode st) -> known_mode (mode (eval (step a st) o c)).
Proof.
  intros Hk. destruct a; simpl; try exact Hk.
  - unfold known_mode. auto.
  - destruct (running st); [|exact Hk].
    destruct (tick_fields
                {| c_user := user st; c_params := c_params cl;
                   c_sensors := c_sensors cl; c_mode := c_mode cl |}
                st o c) as (_ & _ & _ & _ & _ & -> & _).
    exact Hk.
  - apply policy_known_mode, Hk.
Qed.

(** C2: the mode is always one of IDLE, COACHING and REST.  The initial
    mode is IDLE; the policy step, stop, reset and start (and every other
    action) take a mode of this set to a mode of this set; hence every
    reachable state has its mode in the set. *)
Theorem C2_mode_invariant :
  mode init = "IDLE"
  /\ (forall now st, known_mode (mode st) ->
        known_mode (mode (policy now st))
        /\ known_mode (mode (stop st))
        /\ known_mode (mode (reset st))
        /\ known_mode (mode (start st)))
  /\ (forall a st o c, known_mode (mode st) ->
        known_mode (mode (eval (step a st) o c)))
  /\ (forall st, reachable st -> known_mode (mode st)).
Proof.
  split; [reflexivity|]. split; [|split].
  - intros now st Hk. repeat split; try exact Hk.
    + apply policy_known_mode, Hk.
    + unfold known_mode. simpl. auto.
  - intros. apply step_known_mode. assumption.
  - apply reachable_invariant.
    + unfold known_mode. simpl. auto.
    + intros. apply step_known_mode. assumption.
Qed.

Lemma C2_mode_invariant_witness :
  reachable (policy "2025-01-01T00:00:00.000Z" demo_state)
  /\ mode (policy "2025-01-01T00:00:00.000Z" demo_state) = "COACHING"
  /\ known_mode (mode (policy "2025-01-01T00:00:00.000Z" demo_state)).
Proof.
  assert (Hr : reachable (policy "2025-01-01T00:00:00.000Z" demo_state)).
  { exists [Start; Tick (capture init); Policy "2025-01-01T00:00:00.000Z"],
      (const_oracle (1 # 2)), 0%nat.
    vm_compute. reflexivity. }
  split; [exact Hr|]. split; [reflexivity|].
  exact (proj2 (proj2 (proj2 C2_mode_invariant)) _ Hr).
Defined.

(** *** The decision reads the latest record only *)

(** C3: the policy decision depends only on the latest record of the
    stream, the sensor toggles, the policy parameters and the running
    flag.  Two states that agree on these, with non-empty streams whose
    last records are equal, get the same next mode and the same coach
    message (haptic suffix included), whatever the rest of their streams,
    their current modes, messages, logs and clocks. *)
Theorem C3_policy_reads_last_only now1 now2 st1 st2 l :
  sensors st1 = sensors st2 ->
  params st1 = params st2 ->
  running st1 = running st2 ->
  last (stream st1) = Some l ->
  last (stream st2) = Some l ->
  mode (policy now1 st1) = mode (policy now2 st2)
  /\ message (policy now1 st1) = message (policy now2 st2).
Proof.
  intros Hs Hp Hr H1 H2.
  destruct (policy_some now1 st1 l H1) as [-> ->].
  destruct (policy_some now2 st2 l H2) as [-> ->].
  rewrite Hs, Hp, Hr.
  rewrite (policy_decide_cur _ _ _ (mode st1) (mode st2)).
  split; reflexivity.
Qed.

(** *** The stream window *)

Lemma synth_stream_eval cl arr o c :
  eval (synth_stream cl arr) o c
  = slice_last 180 arr ++ [eval (synth_sample cl arr) o c].
Proof.
  unfold eval, synth_stream, bind, ret.
  destruct (synth_sample cl arr o c) as [rec c']. reflexivity.
Qed.

Lemma synth_sample_t cl arr o c :
  s_t (eval (synth_sample cl arr) o c) = next_t arr.
Proof. reflexivity. Qed.

Lemma slice_last_length {A} n (arr : list A) :
  (length (slice_last n arr) <= n)%nat.
Proof. unfold slice_last. rewrite length_drop. lia. Qed.

Lemma slice_last_last {A} n (arr : list A) :
  (0 < n)%nat -> last (slice_last n arr) = last arr.
Proof.
  intros Hn. unfold slice_last. rewrite !last_lookup, length_drop, lookup_drop.
  destruct arr as [|x arr]; [reflexivity|]. simpl length.
  f_equal. lia.
Qed.

Lemma consecutive_nil : consecutive [].
Proof. intros i a b Ha. rewrite lookup_nil in Ha. discriminate. Qed.

Lemma consecutive_drop k arr : consecutive arr -> consecutive (drop k arr).
Proof.
  intros H i a b Ha Hb. rewrite lookup_drop in Ha, Hb.
  replace (k + S i)%nat with (S (k + i)) in Hb by lia.
  exact (H _ _ _ Ha Hb).
Qed.

Lemma consecutive_snoc arr rec :
  consecutive arr ->
  (forall l, last arr = Some l -> s_t rec = (s_t l + 1)%Z) ->
  consecutive (arr ++ [rec]).
Proof.
  intros H Hrec i a b Ha Hb.
  destruct (Nat.lt_ge_cases (S i) (length arr)) as [Hlt|Hge].
  - rewrite lookup_app_l in Ha by lia. rewrite lookup_app_l in Hb by lia.
    exact (H _ _ _ Ha Hb).
  - assert (Hi : S i = length arr).
    { apply lookup_lt_Some in Hb. rewrite length_app in Hb. simpl in Hb. lia. }
    rewrite lookup_app_l in Ha by lia.
    rewrite lookup_app_r in Hb by lia.
    replace (S i - length arr)%nat with 0%nat in Hb by lia.
    simpl in Hb. injection Hb as <-.
    apply Hrec. rewrite last_lookup. rewrite <- Hi. exact Ha.
Qed.

Lemma synth_stream_consecutive cl arr o c :
  consecutive arr -> consecutive (eval (synth_stream cl arr) o c).
Proof.
  intros H. rewrite synth_stream_eval.
  apply consecutive_snoc.
  - apply consecutive_drop, H.
  - intros l Hl. rewrite synth_sample_t. unfold next_t.
    rewrite slice_last_last in Hl by lia. rewrite Hl. reflexivity.
Qed.

Lemma step_window_ok a st o c :
  window_ok st -> window_ok (eval (step a st) o c).
Proof.
  intros [Hlen Hc]. destruct a; simpl; try (split; assumption).
  - split; [simpl; lia | apply consecutive_nil].
  - destruct (running st); [|split; assumption].
    unfold window_ok.
    destruct (tick_fields
                {| c_user := user st; c_params := c_params cl;
                   c_sensors := c_sensors cl; c_mode := c_mode cl |}
                st o c) as (_ & _ & _ & _ & _ & _ & _ & _ & ->).
    split.
    + rewrite synth_stream_eval, length_app.
      pose proof (slice_last_length 180 (stream st)). simpl. lia.
    + apply synth_stream_consecutive, Hc.
  - unfold policy. destruct (last (stream st)); [|split; assumption].
    destruct (policy_decide _ _ _ _ _). split; assumption.
Qed.

(** C5: after every synthesis tick the stream holds at most 181 records,
    and the appended record's [t] is the previous last record's [t] plus
    one (0 for an empty stream); so in every reachable state the stream
    has at most 181 records with consecutive [t] values. *)
Theorem C5_stream_window :
  (forall cl arr o c,
      let arr' := eval (synth_stream cl arr) o c in
      (length arr' <= 181)%nat
      /\ exists rec, last arr' = Some rec
           /\ s_t rec = match last arr with
                        | Some l => (s_t l + 1)%Z
                        | None => 0%Z
                        end)
  /\ (forall cl arr o c,
        consecutive arr -> consecutive (eval (synth_stream cl arr) o c))
  /\ (forall st, reachable st ->
        (length (stream st) <= 181)%nat /\ consecutive (stream st)).
Proof.
  split; [|split].
  - intros cl arr o c. cbv zeta. rewrite synth_stream_eval. split.
    + rewrite length_app. pose proof (slice_last_length 180 arr).
      simpl. lia.
    + exists (eval (synth_sample cl arr) o c). split.
      * apply last_snoc.
      * apply synth_sample_t.
  - intros. apply synth_stream_consecutive. assumption.
  - apply (reachable_invariant window_ok).
    + split; [simpl; lia | apply consecutive_nil].
    + intros. apply step_window_ok. assumption.
Qed.

Lemma C5_stream_window_witness :
  length (stream demo_state) = 1%nat
  /\ (length (stream demo_state) <= 181)%nat
  /\ consecutive (stream demo_state).
Proof.
  split; [reflexivity|].
  exact (proj2 (proj2 C5_stream_window) demo_state demo_state_reachable).
Defined.

(** The bound is reached: 185 ticks leave 181 records, the oldest one
    carrying [t = 4]. *)
Example window_saturates :
  let arr := eval (synth_loop 185 (capture init) []) (const_oracle (1 # 2)) 0 in
  length arr = 181%nat /\ s_t <$> head arr = Some 4%Z
  /\ s_t <$> last arr = Some 184%Z.
Proof. vm_compute. repeat split; reflexivity. Qed.

(** *** Clamp bounds *)

Lemma Math_max_lb a b : a <= Math_max a b.
Proof.
  unfold Math_max. destruct (gtb b a) eqn:E.
  - apply gtb_lt in E. apply Qlt_le_weak, E.
  - apply Qle_refl.
Qed.

Lemma Math_max_lub a b c : a <= c -> b <= c -> Math_max a b <= c.
Proof. intros Ha Hb. unfold Math_max. destruct (gtb b a); assumption. Qed.

Lemma Math_min_ub a b : Math_min a b <= a.
Proof.
  unfold Math_min. destruct (ltb b a) eqn:E.
  - apply ltb_lt in E. apply Qlt_le_weak, E.
  - apply Qle_refl.
Qed.

Lemma clamp_bounds v lo hi : lo <= hi -> lo <= clamp v lo hi <= hi.
Proof.
  intros H. unfold clamp. split.
  - apply Math_max_lb.
  - apply Math_max_lub; [exact H | apply Math_min_ub].
Qed.

(** Each main signal of a synthesised record is a clamped value. *)
Lemma synth_sample_clamped cl arr o c :
  let r := eval (synth_sample cl arr) o c in
  (exists v, s_smooth r = clamp v 0 1)
  /\ (exists v, s_tremor r = clamp v 0 1)
  /\ (exists v, s_grip r = clamp v 0 (gripMax (c_user cl)))
  /\ (exists v, s_hr r = clamp v 50 200)
  /\ (exists v, s_rr r = clamp v 6 35).
Proof.
  cbv zeta. repeat split; eexists; reflexivity.
Qed.

Lemma synth_sample_in_bounds cl arr o c :
  c_user cl = defaultUserModel ->
  in_bounds (eval (synth_sample cl arr) o c).
Proof.
  intros Hu.
  destruct (synth_sample_clamped cl arr o c)
    as ([v1 E1] & [v2 E2] & [v3 E3] & [v4 E4] & [v5 E5]).
  unfold in_bounds. rewrite E1, E2, E3, E4, E5, Hu.
  repeat apply conj; apply clamp_bounds; discriminate.
Qed.

Lemma step_bounded a st o c :
  user st = defaultUserModel /\ Forall in_bounds (stream st) ->
  let st' := eval (step a st) o c in
  user st' = defaultUserModel /\ Forall in_bounds (stream st').
Proof.
  intros [Hu Hb]. cbv zeta. destruct a; simpl; try (split; assumption).
  - split; [assumption | constructor].
  - destruct (running st); [|split; assumption].
    match goal with |- context [tick ?k st] =>
      destruct (tick_fields k st o c)
        as (_ & -> & _ & _ & _ & _ & _ & _ & ->)
    end.
    split; [assumption|].
    rewrite synth_stream_eval. apply Forall_app. split.
    + unfold slice_last. apply Forall_drop, Hb.
    + constructor; [|constructor].
      apply synth_sample_in_bounds. exact Hu.
  - unfold policy. destruct (last (stream st)); [|split; assumption].
    destruct (policy_decide _ _ _ _ _). split; assumption.
Qed.

(** C6: every sample the synthesis loop produces is within the clamp
    bounds, whatever jitter is drawn: smooth and tremor in [0, 1], grip in
    [0, 60] (60 being the user's gripMax), hr in [50, 200] and rr in
    [6, 35].  This holds of the record built by any run of the updater
    under the one user model there is, and so of every record in the
    stream of every reachable state. *)
Theorem C6_sample_bounds :
  (forall pr sn md arr o c,
      in_bounds (eval (synth_sample
                         {| c_user := defaultUserModel; c_params := pr;
                            c_sensors := sn; c_mode := md |} arr) o c))
  /\ (forall st, reachable st ->
        user st = defaultUserModel
        /\ forall r, In r (stream st) -> in_bounds r).
Proof.
  split.
  - intros. apply synth_sample_in_bounds. reflexivity.
  - intros st Hr.
    assert (H : user st = defaultUserModel /\ Forall in_bounds (stream st)).
    { revert st Hr. apply reachable_invariant.
      - split; [reflexivity | constructor].
      - intros a st o c H. apply (step_bounded a st o c H). }
    destruct H as [Hu Hb]. split; [exact Hu|].
    intros r Hin. rewrite Forall_forall in Hb. apply Hb.
    apply list_elem_of_In. exact Hin.
Qed.

Lemma C6_sample_bounds_witness :
  In demo_sample (stream demo_state) /\ in_bounds demo_sample.
Proof.
  assert (Hin : In demo_sample (stream demo_state)) by (left; reflexivity).
  split; [exact Hin|].
  exact (proj2 (proj2 C6_sample_bounds demo_state demo_state_reachable)
           demo_sample Hin).
Defined.

(** *** Jitter and reproducibility *)









Lemma C3_policy_reads_last_only_witness :
  stream demo_state <> stream demo_state_other
  /\ mode demo_state <> mode demo_state_other
  /\ mode (policy "2025-01-01T00:00:00.000Z" demo_state)
     = mode (policy "2025-01-02T00:00:00.000Z" demo_state_other)
  /\ message (policy "2025-01-01T00:00:00.000Z" demo_state)
     = message (policy "2025-01-02T00:00:00.000Z" demo_state_other).
Proof.
  split; [discriminate|]. split; [discriminate|].
  exact (C3_policy_reads_last_only
           "2025-01-01T00:00:00.000Z" "2025-01-02T00:00:00.000Z"
           demo_state demo_state_other demo_sample
           eq_refl eq_refl eq_refl eq_refl eq_refl).
Defined.









(** *** Reset and the event log *)

(** C7: the only record kept is the in-memory event log.  Reset empties
    the stream and the log and zeroes the elapsed time, leaving policy
    parameters, sensor toggles, mode and message (and the running flag and
    user model) as they were; the policy effect run on the emptied stream
    changes nothing; and the log changes only by reset emptying it or by a
    policy step appending one line to it. *)
Theorem C7_reset_and_log_frame :
  (forall st,
      stream (reset st) = [] /\ notes (reset st) = []
      /\ time (reset st) = 0%Z
      /\ params (reset st) = params st /\ sensors (reset st) = sensors st
      /\ mode (reset st) = mode st /\ message (reset st) = message st
      /\ running (reset st) = running st /\ user (reset st) = user st)
  /\ (forall now st, policy now (reset st) = reset st)
  /\ (forall a st o c,
        let st' := eval (step a st) o c in
        notes st' = notes st
        \/ (a = Reset /\ notes st' = [])
        \/ (exists now l,
              a = Policy now /\ last (stream st) = Some l
              /\ notes st'
                 = notes st ++ [make_note now (mode st') (message st') l])).
Proof.
  split; [|split].
  - intros st. repeat split; reflexivity.
  - intros now st. reflexivity.
  - intros a st o c. cbv zeta. destruct a; simpl; auto.
    + destruct (running st); [|auto].
      match goal with |- context [tick ?k st] =>
        destruct (tick_fields k st o c)
          as (_ & _ & _ & _ & _ & _ & -> & _)
      end.
      auto.
    + unfold policy. destruct (last (stream st)) as [l|] eqn:Hl; [|auto].
      destruct (policy_decide _ _ _ _ l) as [m co]. simpl.
      destruct (should_log _ co); [|auto].
      right. right. exists now, l. auto.
Qed.

Lemma C7_reset_and_log_frame_witness :
  notes demo_state_other <> []
  /\ stream demo_state_other <> []
  /\ notes (reset demo_state_other) = []
  /\ stream (reset demo_state_other) = []
  /\ mode (reset demo_state_other) = "REST".
Proof.
  pose proof (proj1 C7_reset_and_log_frame demo_state_other)
    as (Hs & Hn & _ & _ & _ & Hm & _).
  split; [discriminate|]. split; [discriminate|].
  split; [exact Hn|]. split; [exact Hs|]. exact Hm.
Defined.

End AppProofs.

(** * Properties of the sensor-layout editor *)
Module LayoutProofs.
Import LayoutPane.

Lemma move_point_id id dx dy p : p_id (move_point id dx dy p) = p_id p.
Proof. unfold move_point. destruct (String.eqb (p_id p) id); reflexivity. Qed.

Lemma move_point_hit id dx dy p :
  p_id p = id ->
  move_point id dx dy p
  = {| p_id := p_id p; p_x := p_x p + dx; p_y := p_y p + dy |}.
Proof.
  intros H. unfold move_point.
  apply String.eqb_eq in H. rewrite H. reflexivity.
Qed.

Lemma move_point_miss id dx dy p : p_id p <> id -> move_point id dx dy p = p.
Proof.
  intros H. unfold move_point.
  apply String.eqb_neq in H. rewrite H. reflexivity.
Qed.

Lemma handle_ids ev pn :
  map p_id (points (handle ev pn)) = map p_id (points pn).
Proof.
  destruct ev as [id e|e|]; simpl; try reflexivity.
  unfold onMove. destruct (dragging pn) as [d|]; [|reflexivity].
  simpl. rewrite map_map. apply map_ext. intros p. apply move_point_id.
Qed.

Lemma reachable_ids pn :
  reachable pn -> map p_id (points pn) = map p_id (points init).
Proof.
  intros [evs <-]. unfold handle_all.
  generalize init. induction evs as [|ev evs IH]; intros pn0.
  - reflexivity.
  - simpl. rewrite IH. apply handle_ids.
Qed.

Lemma init_ids_NoDup : NoDup (map p_id (points init)).
Proof. refine (bool_decide_unpack _ _). vm_compute. reflexivity. Qed.

(** C8: every mouse-move during a drag translates exactly the dragged
    point, by the mouse delta since the previous event, and leaves every
    other point as it was; a mouse-move with no drag in progress changes
    nothing.  The previous event is the press or the move that last set
    the drag origin; the markers' ids are pairwise distinct in every
    reachable pane, so one point at most carries the dragged id. *)
Theorem C8_drag_moves_only_dragged e pn :
  (forall d, dragging pn = Some d ->
      let dx := clientX e - ox d in
      let dy := clientY e - oy d in
      (forall i p, points pn !! i = Some p -> p_id p = d_id d ->
          points (onMove e pn) !! i
          = Some {| p_id := p_id p; p_x := p_x p + dx; p_y := p_y p + dy |})
      /\ (forall i p, points pn !! i = Some p -> p_id p <> d_id d ->
            points (onMove e pn) !! i = Some p)
      /\ length (points (onMove e pn)) = length (points pn)
      /\ dragging (onMove e pn)
         = Some {| d_id := d_id d; ox := clientX e; oy := clientY e |})
  /\ (dragging pn = None -> onMove e pn = pn)
  /\ (forall id e0,
        dragging (onDown id e0 pn)
        = Some {| d_id := id; ox := clientX e0; oy := clientY e0 |})
  /\ (reachable pn ->
      forall i j p q, points pn !! i = Some p -> points pn !! j = Some q ->
                      p_id p = p_id q -> i = j).
Proof.
  split; [|split; [|split]].
  - intros d Hd. cbv zeta. unfold onMove. rewrite Hd. simpl.
    repeat split.
    + intros i p Hi Hp. rewrite list_lookup_fmap, Hi. simpl.
      rewrite move_point_hit by exact Hp. reflexivity.
    + intros i p Hi Hp. rewrite list_lookup_fmap, Hi. simpl.
      rewrite move_point_miss by exact Hp. reflexivity.
    + apply length_map.
  - intros Hd. unfold onMove. rewrite Hd. reflexivity.
  - reflexivity.
  - intros Hr i j p q Hi Hj Hpq.
    pose proof init_ids_NoDup as Hnd. rewrite <- (reachable_ids pn Hr) in Hnd.
    apply (NoDup_lookup _ i j (p_id p) Hnd).
    + change (map p_id (points pn)) with (p_id <$> points pn).
      rewrite list_lookup_fmap, Hi. reflexivity.
    + change (map p_id (points pn)) with (p_id <$> points pn).
      rewrite list_lookup_fmap, Hj, Hpq. reflexivity.
Qed.

Lemma C8_drag_moves_only_dragged_witness :
  dragging demo_drag
    = Some {| d_id := "wrist"; ox := 330; oy := 200 |}
  /\ points (onMove demo_move demo_drag) !! 3%nat
     = Some {| p_id := "wrist"; p_x := 330 + (335 - 330);
               p_y := 200 + (190 - 200) |}
  /\ points (onMove demo_move demo_drag) !! 2%nat
     = Some {| p_id := "forearm"; p_x := 260; p_y := 150 |}.
Proof.
  assert (Hd : dragging demo_drag
               = Some {| d_id := "wrist"; ox := 330; oy := 200 |})
    by reflexivity.
  destruct (proj1 (C8_drag_moves_only_dragged demo_move demo_drag) _ Hd)
    as (Hhit & Hmiss & _).
  split; [exact Hd|]. split.
  - exact (Hhit 3%nat {| p_id := "wrist"; p_x := 330; p_y := 200 |}
             eq_refl eq_refl).
  - refine (Hmiss 2%nat {| p_id := "forearm"; p_x := 260; p_y := 150 |}
              eq_refl _).
    discriminate.
Defined.

End LayoutProofs.

(** * Properties of the CSV exporter *)
Module CsvProofs.
Import JS Csv.

Lemma append_cons a s t : String a s +:+ t = String a (s +:+ t).
Proof. reflexivity. Qed.

Lemma append_empty_r s : s +:+ "" = s.
Proof.
  induction s as [|a s IH]; [reflexivity|].
  rewrite append_cons, IH. reflexivity.
Qed.

Lemma append_assoc a b c : (a +:+ b) +:+ c = a +:+ b +:+ c.
Proof.
  induction a as [|x a IH]; [reflexivity|].
  rewrite !append_cons, IH. reflexivity.
Qed.

Lemma join_cons2 sep x y rest :
  join sep (x :: y :: rest) = x +:+ sep +:+ join sep (y :: rest).
Proof. reflexivity. Qed.

(** Joining with a separator puts the separator before every element but
    the first. *)
Lemma join_flatten sep x rest :
  join sep (x :: rest) = x +:+ flatten (map (fun l => sep +:+ l) rest).
Proof.
  revert x. induction rest as [|y rest IH]; intros x.
  - simpl. symmetry. apply append_empty_r.
  - rewrite join_cons2, IH. simpl.
    rewrite append_assoc. reflexivity.
Qed.

Lemma has_LF_append a b : has_LF (a +:+ b) = has_LF a || has_LF b.
Proof.
  induction a as [|c a IH]; [reflexivity|].
  rewrite append_cons. simpl. rewrite IH. apply orb_assoc.
Qed.

Lemma has_LF_join_comma xs :
  forallb (fun x => negb (has_LF x)) xs = true ->
  has_LF (join "," xs) = false.
Proof.
  induction xs as [|x rest IH]; intros H; [reflexivity|].
  simpl in H. apply andb_true_iff in H as [Hx Hr].
  apply negb_true_iff in Hx.
  destruct rest as [|y rest]; [exact Hx|].
  rewrite join_cons2, !has_LF_append, Hx, (IH Hr). reflexivity.
Qed.

Lemma lines_of_one s : has_LF s = false -> lines_of s = [s].
Proof.
  induction s as [|a s IH]; intros H; [reflexivity|].
  simpl in *. apply orb_false_iff in H as [Ha Hs].
  rewrite Ha, (IH Hs). reflexivity.
Qed.

Lemma lines_of_app_LF s rest :
  has_LF s = false -> lines_of (s +:+ LF +:+ rest) = s :: lines_of rest.
Proof.
  induction s as [|a s IH]; intros H; [reflexivity|].
  rewrite append_cons. simpl in *. apply orb_false_iff in H as [Ha Hs].
  rewrite Ha, (IH Hs). reflexivity.
Qed.

(** Splitting at line feeds undoes joining with them, for pieces that hold
    none. *)
Lemma lines_of_join x rest :
  forallb (fun s => negb (has_LF s)) (x :: rest) = true ->
  lines_of (join LF (x :: rest)) = x :: rest.
Proof.
  revert x. induction rest as [|y rest IH]; intros x H.
  - simpl in H. rewrite andb_true_r in H. apply negb_true_iff in H.
    simpl. apply lines_of_one, H.
  - change (forallb _ (x :: y :: rest))
      with (negb (has_LF x)
            && forallb (fun s => negb (has_LF s)) (y :: rest)) in H.
    apply andb_true_iff in H as [Hx Hr]. apply negb_true_iff in Hx.
    rewrite join_cons2, lines_of_app_LF by exact Hx.
    rewrite (IH y Hr). reflexivity.
Qed.

Lemma one_line_row_keys r :
  one_line_row r = true ->
  forallb (fun x => negb (has_LF x)) (Object_keys r) = true.
Proof.
  unfold one_line_row, Object_keys.
  induction r as [|[k v] r IH]; intros H; [reflexivity|].
  simpl in *. apply andb_true_iff in H as [Hkv Hr].
  apply andb_true_iff in Hkv as [Hk _]. rewrite Hk, (IH Hr). reflexivity.
Qed.

Lemma one_line_row_values r :
  one_line_row r = true ->
  forallb (fun x => negb (has_LF x)) (map to_text (Object_values r)) = true.
Proof.
  unfold one_line_row, Object_values.
  induction r as [|[k v] r IH]; intros H; [reflexivity|].
  simpl in *. apply andb_true_iff in H as [Hkv Hr].
  apply andb_true_iff in Hkv as [_ Hv]. rewrite Hv, (IH Hr). reflexivity.
Qed.

Lemma lines_clean rows :
  forallb one_line_row rows = true ->
  forallb (fun s => negb (has_LF s)) (map line_of rows) = true.
Proof.
  induction rows as [|r rows IH]; intros H; [reflexivity|].
  simpl in *. apply andb_true_iff in H as [Hr Hrows].
  rewrite (IH Hrows), andb_true_r. apply negb_true_iff.
  apply has_LF_join_comma, one_line_row_values, Hr.
Qed.

(** *** The rows of the event log are one-line rows *)

Lemma has_LF_digits d :
  has_LF (DecimalString.NilEmpty.string_of_uint d) = false.
Proof. induction d; simpl; assumption || reflexivity. Qed.

Lemma has_LF_string_of_N n : has_LF (string_of_N n) = false.
Proof.
  unfold string_of_N, DecimalString.NilZero.string_of_uint.
  destruct (N.to_uint n) eqn:E; try reflexivity;
    rewrite <- E; apply has_LF_digits.
Qed.

Lemma has_LF_string_of_Z z : has_LF (string_of_Z z) = false.
Proof.
  destruct z as [|q|q]; unfold string_of_Z.
  - apply has_LF_string_of_N.
  - apply has_LF_string_of_N.
  - rewrite has_LF_append, has_LF_string_of_N. reflexivity.
Qed.

Lemma has_LF_zeros k : has_LF (zeros k) = false.
Proof. induction k; simpl; assumption || reflexivity. Qed.

Lemma has_LF_substring s :
  has_LF s = false -> forall n m, has_LF (substring n m s) = false.
Proof.
  induction s as [|a s IH]; intros H n m.
  - destruct n, m; reflexivity.
  - simpl in H. apply orb_false_iff in H as [Ha Hs].
    destruct n as [|n]; [destruct m as [|m]|]; simpl.
    + reflexivity.
    + rewrite Ha. apply IH, Hs.
    + apply IH, Hs.
Qed.

Lemma has_LF_toFixed x f : has_LF (toFixed x f) = false.
Proof.
  unfold toFixed.
  set (n := Z.to_N _). set (m0 := string_of_N n).
  set (m := if Nat.leb (String.length m0) f then _ else m0).
  assert (Hm : has_LF m = false).
  { subst m. destruct (Nat.leb _ f); [|apply has_LF_string_of_N].
    rewrite has_LF_append, has_LF_zeros. apply has_LF_string_of_N. }
  assert (Hb : has_LF (match f with
                       | O => m
                       | S _ => substring 0 (String.length m - f) m +:+ "."
                                +:+ substring (String.length m - f) f m
                       end) = false).
  { destruct f; [exact Hm|].
    rewrite !has_LF_append, !has_LF_substring by exact Hm. reflexivity. }
  destruct (ltb x 0); [|exact Hb].
  rewrite has_LF_append, Hb. reflexivity.
Qed.

Lemma has_LF_policy_decide sn p rn cur l :
  has_LF (fst (App.policy_decide sn p rn cur l)) = false
  /\ has_LF (snd (App.policy_decide sn p rn cur l)) = false.
Proof.
  unfold App.policy_decide.
  repeat match goal with
         | |- context [if ?b then _ else _] => destruct b
         end; split; reflexivity.
Qed.

Lemma one_line_make_note now m c l :
  has_LF now = false -> has_LF m = false -> has_LF c = false ->
  one_line_row (row_of_note (App.make_note now m c l)) = true.
Proof.
  intros Hn Hm Hc. unfold one_line_row, row_of_note, App.make_note. simpl.
  rewrite Hn, Hm, Hc, !has_LF_toFixed, !has_LF_string_of_Z. reflexivity.
Qed.

Lemma step_one_line_log a st o c :
  plain_action a -> one_line_log st ->
  one_line_log (Rng.eval (App.step a st) o c).
Proof.
  intros Ha Hst. destruct a; simpl; try exact Hst.
  - reflexivity.
  - destruct (App.running st); [|exact Hst].
    unfold one_line_log.
    match goal with |- context [App.tick ?k st] =>
      destruct (AppProofs.tick_fields k st o c)
        as (_ & _ & _ & _ & _ & _ & -> & _)
    end.
    exact Hst.
  - unfold App.policy. destruct (last (App.stream st)) as [l|]; [|exact Hst].
    pose proof (has_LF_policy_decide (App.sensors st) (App.params st)
                  (App.running st) (App.mode st) l) as [Hm Hc].
    destruct (App.policy_decide _ _ _ _ l) as [m co]. simpl in Hm, Hc.
    unfold one_line_log. cbn [App.notes].
    destruct (App.should_log _ co); [|exact Hst].
    change (forallb one_line_row
              (map row_of_note (App.notes st ++ [App.make_note now m co l]))
            = true).
    rewrite map_app, forallb_app. apply andb_true_iff. split; [exact Hst|].
    cbn [map forallb]. rewrite one_line_make_note by assumption. reflexivity.
Qed.

(** Whatever the component does, with timestamps free of line feeds, the
    rows of its log are one-line rows: the texts [exportCSV] is given by
    the export button split into the header and one line per log line. *)
Lemma log_rows_one_line acts o c :
  Forall plain_action acts ->
  one_line_log (Rng.eval (App.run acts App.init) o c).
Proof.
  intros Hacts.
  assert (H : forall st o c, one_line_log st ->
                             one_line_log (Rng.eval (App.run acts st) o c)).
  { induction Hacts as [|a rest Ha Hrest IH]; intros st o' c' Hst.
    - exact Hst.
    - unfold Rng.eval in *. simpl. unfold Rng.bind.
      pose proof (step_one_line_log a st o' c' Ha Hst) as Hs.
      unfold Rng.eval in Hs.
      destruct (App.step a st o' c') as [st' c'']. simpl in Hs.
      apply IH, Hs. }
  apply H. reflexivity.
Qed.

Lemma exportCSV_lines r rs f :
  forallb one_line_row (r :: rs) = true ->
  lines_of (d_text (exportCSV (r :: rs) f))
  = header_of (r :: rs) :: map line_of (r :: rs).
Proof.
  intros H.
  assert (Hh : has_LF (header_of (r :: rs)) = false).
  { apply has_LF_join_comma, one_line_row_keys.
    simpl in H. apply andb_true_iff in H as [Hr _]. exact Hr. }
  assert (Hc : forallb (fun s => negb (has_LF s))
                 (header_of (r :: rs) :: map line_of (r :: rs)) = true).
  { apply andb_true_iff. split.
    - rewrite Hh. reflexivity.
    - apply lines_clean, H. }
  exact (lines_of_join _ _ Hc).
Qed.

(** C9: for a non-empty list of rows the text built by exportCSV is one
    header line, the comma-joined keys of the first row, followed by one
    line per row, in row order, holding the row's comma-joined values:
    each line after the header is introduced by a line feed, and, the
    cells holding no line feed themselves (as is the case of the rows of
    the event log), splitting the text at line feeds gives back exactly the
    header and the rows' lines.  For the empty list the header is the empty
    string and there are no data lines. *)
Theorem C9_exportCSV_layout :
  (forall r rs f,
      d_text (exportCSV (r :: rs) f)
      = join "," (Object_keys r)
        +:+ flatten (map (fun x => LF +:+ join "," (map to_text (Object_values x)))
                         (r :: rs)))
  /\ (forall r rs f,
        forallb one_line_row (r :: rs) = true ->
        lines_of (d_text (exportCSV (r :: rs) f))
        = join "," (Object_keys r)
          :: map (fun x => join "," (map to_text (Object_values x))) (r :: rs))
  /\ (forall acts o c r rs f,
        Forall plain_action acts ->
        map row_of_note (App.notes (Rng.eval (App.run acts App.init) o c))
        = r :: rs ->
        lines_of (d_text (exportCSV (r :: rs) f))
        = join "," (Object_keys r)
          :: map (fun x => join "," (map to_text (Object_values x))) (r :: rs))
  /\ (forall f,
        header_of [] = "" /\ map line_of [] = []
        /\ d_text (exportCSV [] f) = "").
Proof.
  split; [|split; [|split]].
  - intros r rs f. unfold exportCSV. cbn [d_text].
    rewrite join_flatten, map_map. reflexivity.
  - intros r rs f H. exact (exportCSV_lines r rs f H).
  - intros acts o c r rs f Hacts Hrows.
    apply (exportCSV_lines r rs f).
    rewrite <- Hrows. exact (log_rows_one_line acts o c Hacts).
  - intros f. repeat split; reflexivity.
Qed.

Lemma C9_exportCSV_layout_witness :
  forallb one_line_row demo_rows = true
  /\ lines_of (d_text (exportCSV demo_rows default_filename))
     = [ "ts,mode,msg,smooth,tremor,grip,hr,rr";
         "2025-01-01T00:00:00.000Z,COACHING,Nice form — adding tiny challenge • Haptic cue: 200 ms pulse,0.70,0.07,18.0,87,13" ].
Proof.
  assert (H : forallb one_line_row demo_rows = true)
    by (vm_compute; reflexivity).
  split; [exact H|].
  exact (proj1 (proj2 C9_exportCSV_layout) _ _ default_filename H).
Defined.

End CsvProofs.

(** * Properties of the canvas renderer *)
Module ThreeProofs.
Import Three.

Lemma occurs_wrap l a x b : occurs l x -> occurs l (a ++ x ++ b).
Proof.
  intros (pre & post & ->). exists (a ++ pre), (post ++ b).
  rewrite <- !app_assoc. reflexivity.
Qed.

Lemma occurs_in_concat {A} l (f : A -> list call) c ch :
  In c ch -> occurs l (f c) -> occurs l (concat (map f ch)).
Proof.
  intros Hin Hoc. apply in_split in Hin as (ch1 & ch2 & ->).
  rewrite map_app, concat_app. simpl.
  apply occurs_wrap, Hoc.
Qed.

Lemma drawObject_hidden o : visible o = false -> drawObject o = [].
Proof. destruct o as [k p r v ch]. simpl. intros ->. reflexivity. Qed.

Lemma drawObject_visible k p r ch :
  drawObject (Obj k p r true ch)
  = [save] ++ place p r
    ++ match k with KMesh g m => draw_mesh g m | KOther => [] end
    ++ concat (map drawObject ch) ++ [restore].
Proof. reflexivity. Qed.

Lemma drawObject_self o g m :
  visible o = true -> kind_of o = KMesh g m ->
  occurs (draw_mesh g m) (drawObject o).
Proof.
  destruct o as [k p r v ch]. cbn [visible kind_of]. intros -> ->.
  rewrite drawObject_visible.
  exists ([save] ++ place p r), (concat (map drawObject ch) ++ [restore]).
  rewrite <- !app_assoc. reflexivity.
Qed.

Lemma drawObject_child l p c :
  visible p = true -> In c (children p) ->
  occurs l (drawObject c) -> occurs l (drawObject p).
Proof.
  destruct p as [k ps r v ch]. cbn [visible children]. intros -> Hin Hoc.
  rewrite drawObject_visible.
  pose proof (occurs_in_concat l drawObject c ch Hin Hoc) as H.
  apply (occurs_wrap l
           ([save] ++ place ps r
            ++ match k with KMesh g m => draw_mesh g m | KOther => [] end)
           _ [restore]) in H.
  rewrite <- !app_assoc in H. exact H.
Qed.

Lemma shown_visible root o : shown_in root o -> visible o = true.
Proof. intros H. destruct H; assumption. Qed.

Lemma shown_occurs root o l :
  shown_in root o -> occurs l (drawObject o) ->
  occurs l (concat (map drawObject (children root))).
Proof.
  intros H. revert l. induction H as [c Hin Hv | p c Hp IH Hin Hv]; intros l Hoc.
  - apply (occurs_in_concat l drawObject c); assumption.
  - apply IH. apply (drawObject_child l p c); try assumption.
    apply (shown_visible root), Hp.
Qed.

Lemma shown_under root c d :
  In c (children root) -> visible c = true ->
  shown_in c d -> shown_in root d.
Proof.
  intros Hin Hv H. induction H as [e He Hve | p e Hp IH He Hve].
  - apply (shown_deeper root c e); [apply shown_child| |]; assumption.
  - apply (shown_deeper root p e); assumption.
Qed.

Lemma place_no_roundRect p r c : In c (place p r) -> is_roundRect c = false.
Proof.
  unfold place. intros H.
  repeat (apply in_app_or in H as [H|H]);
    repeat match type of H with
           | In _ (if ?b then _ else _) => destruct b
           end;
    simpl in H; repeat destruct H as [H|H]; subst; try reflexivity;
    contradiction.
Qed.

(** Every rounded rectangle among the calls of [drawObject o] is that of
    [o] itself or of a mesh shown below [o]. *)
Lemma drawObject_roundRect o :
  forall c, In c (drawObject o) -> is_roundRect c = true ->
    visible o = true
    /\ ((exists g m, kind_of o = KMesh g m /\ In c (draw_mesh g m))
        \/ (exists d g m, shown_in o d /\ kind_of d = KMesh g m
                          /\ In c (draw_mesh g m))).
Proof.
  induction o as [k p r v ch IH] using Object3D_ind. intros c Hin Hrr.
  destruct v; [|simpl in Hin; contradiction].
  split; [reflexivity|].
  rewrite drawObject_visible in Hin.
  apply in_app_or in Hin as [Hin|Hin].
  { simpl in Hin. destruct Hin as [<-|[]]. discriminate. }
  apply in_app_or in Hin as [Hin|Hin].
  { apply place_no_roundRect in Hin. congruence. }
  apply in_app_or in Hin as [Hin|Hin].
  { destruct k as [g m|]; [|contradiction].
    left. exists g, m. split; [reflexivity | exact Hin]. }
  apply in_app_or in Hin as [Hin|Hin].
  - right. apply in_concat in Hin as (l & Hl & Hc).
    apply in_map_iff in Hl as (child & <- & Hchild).
    rewrite Forall_forall in IH.
    assert (Hel : child ∈ ch) by (apply list_elem_of_In; exact Hchild).
    destruct (IH child Hel c Hc Hrr)
      as (Hv & [(g & m & Hk & Hd) | (d & g & m & Hs & Hk & Hd)]).
    + exists child, g, m. split; [|split; assumption].
      apply shown_child; assumption.
    + exists d, g, m. split; [|split; assumption].
      apply (shown_under _ child); assumption.
  - simpl in Hin. destruct Hin as [<-|[]]. discriminate.
Qed.

Lemma render_with_context rd scene :
  has_ctx rd = true ->
  render rd scene
  = [clearRect 0 0 (dom_width rd) (dom_height rd); save;
     translate (dom_width rd / 2) (dom_height rd * (6 # 10))]
    ++ concat (map drawObject (children scene)) ++ [restore].
Proof. intros H. unfold render. rewrite H. reflexivity. Qed.

(** The guard on a missing 2D context: nothing is drawn at all. *)
Lemma render_without_context rd scene :
  has_ctx rd = false -> render rd scene = [].
Proof. intros H. unfold render. rewrite H. reflexivity. Qed.

(** C10, as stated, fails at the scene itself: [render] never reads the
    scene's own [visible] flag, so a scene flagged invisible still has its
    visible meshes drawn.  Here the scene's flag is off and the rounded
    rectangle of its child mesh is filled all the same. *)
Lemma C10_hidden_scene_counterexample :
  visible hidden_scene = false
  /\ In (demo_mesh 959977 true) (children hidden_scene)
  /\ In fill (render demo_renderer hidden_scene)
  /\ occurs (draw_mesh (Some {| width := 1; height := 1 # 2; depth := 1 |})
                       (Some {| color := Some 959977%N; roughness := 1 # 2 |}))
            (render demo_renderer hidden_scene).
Proof.
  split; [reflexivity|]. split; [left; reflexivity|]. split.
  - vm_compute. repeat (first [left; reflexivity | right]).
  - exists [clearRect 0 0 640 360; save; translate (640 / 2) (360 * (6 # 10));
            save; translate (0 * 60) (- 0 * 60 + 0 * 5)],
           [restore; restore].
    reflexivity.
Qed.

(** C10, amended: the stand-in renderer draws on a 2D canvas.  When the
    canvas gave a 2D context, [render] draws every visible Mesh whose
    ancestors below the scene are all visible as a filled rounded
    rectangle (the calls of [draw_mesh], ending in roundRect, fill and
    stroke, occur in a row), draws nothing for an object whose flag is
    off, descendants included ([drawObject] makes no call at all), and
    every rounded rectangle it draws is that of such a shown Mesh.  The
    scene's own flag is not consulted. *)
Theorem C10_render_shown_meshes rd scene :
  has_ctx rd = true ->
  (forall o g m,
      shown_in scene o -> kind_of o = KMesh g m ->
      occurs (draw_mesh g m) (render rd scene))
  /\ (forall o, visible o = false -> drawObject o = [])
  /\ (forall c,
        In c (render rd scene) -> is_roundRect c = true ->
        exists o g m, shown_in scene o /\ kind_of o = KMesh g m
                      /\ In c (draw_mesh g m))
  /\ (forall g m, exists x y w h,
        draw_mesh g m
        = [ set_fillStyle
              (colorToCss (match m with
                           | Some mt => default 8947848%N (color mt)
                           | None => 8947848%N
                           end));
            set_strokeStyle "rgba(15,23,42,0.15)"; set_lineWidth 2;
            beginPath; roundRect x y w h 6; fill; stroke ])
  /\ render rd scene
     = render rd (Obj (kind_of scene) (position scene) (rotation scene)
                      (negb (visible scene)) (children scene)).
Proof.
  intros Hctx. split; [|split; [|split; [|split]]].
  - intros o g m Hs Hk. rewrite render_with_context by exact Hctx.
    apply occurs_wrap. apply (shown_occurs scene o); [exact Hs|].
    apply drawObject_self; [apply (shown_visible scene), Hs | exact Hk].
  - apply drawObject_hidden.
  - intros c Hin Hrr. rewrite render_with_context in Hin by exact Hctx.
    apply in_app_or in Hin as [Hin|Hin].
    { simpl in Hin. destruct Hin as [<-|[<-|[<-|[]]]]; discriminate. }
    apply in_app_or in Hin as [Hin|Hin].
    + apply in_concat in Hin as (l & Hl & Hc).
      apply in_map_iff in Hl as (child & <- & Hchild).
      destruct (drawObject_roundRect child c Hc Hrr)
        as (Hv & [(g & m & Hk & Hd) | (d & g & m & Hs & Hk & Hd)]).
      * exists child, g, m. split; [|split; assumption].
        apply shown_child; assumption.
      * exists d, g, m. split; [|split; assumption].
        apply (shown_under _ child); assumption.
    + simpl in Hin. destruct Hin as [<-|[]]. discriminate.
  - intros g m. unfold draw_mesh. do 4 eexists.
    destruct m as [[[c|] rg]|]; reflexivity.
  - unfold render. destruct (negb (has_ctx rd)); reflexivity.
Qed.

Lemma C10_render_shown_meshes_witness :
  has_ctx demo_renderer = true
  /\ occurs (draw_mesh (Some {| width := 1; height := 1 # 2; depth := 1 |})
                       (Some {| color := Some 959977%N; roughness := 1 # 2 |}))
            (render demo_renderer demo_scene)
  /\ ~ In (set_fillStyle "#f97316") (render demo_renderer demo_scene).
Proof.
  assert (Hctx : has_ctx demo_renderer = true) by reflexivity.
  destruct (C10_render_shown_meshes demo_renderer demo_scene Hctx)
    as (Hdraw & _ & _).
  split; [exact Hctx|]. split.
  - apply (Hdraw (demo_mesh 959977 true)); [|reflexivity].
    apply (shown_deeper demo_scene
             (Obj KOther {| v_x := 1; v_y := 0; v_z := 0 |} no_rotation true
                [demo_mesh 959977 true])).
    + apply shown_child; [left; reflexivity | reflexivity].
    + left. reflexivity.
    + reflexivity.
  - vm_compute. intros H.
    repeat (destruct H as [H|H]; [discriminate H|]). exact H.
Defined.

End ThreeProofs.

(** * Further properties of the coaching state machine *)
Module AppMoreProofs.
Import JS Rng App AppMore AppProofs.

(** *** The clock and the stream *)

Lemma clock_ok_next_t st : clock_ok st -> next_t (stream st) = time st.
Proof.
  intros (H0 & Hlen & Ht). unfold next_t. rewrite last_lookup.
  destruct (stream st !! pred (length (stream st))) as [r|] eqn:E.
  - rewrite (Ht _ _ E). apply lookup_lt_Some in E. lia.
  - apply lookup_ge_None in E.
    assert (length (stream st) = 0%nat) by lia. lia.
Qed.

Lemma tick_clock_ok cl st o c :
  clock_ok st -> clock_ok (eval (tick cl st) o c).
Proof.
  intros Hok. pose proof (clock_ok_next_t st Hok) as Hnext.
  destruct Hok as (H0 & Hlen & Ht).
  destruct (tick_fields cl st o c)
    as (_ & _ & _ & _ & _ & _ & _ & Etime & Estream).
  unfold clock_ok. rewrite Etime, Estream, synth_stream_eval.
  unfold slice_last.
  assert (Hl : length (drop (length (stream st) - 180) (stream st)
                       ++ [eval (synth_sample cl (stream st)) o c])
               = Z.to_nat (Z.min (time st + 1) 181)).
  { rewrite length_app, length_drop. simpl. lia. }
  split; [lia|]. split; [exact Hl|].
  intros i r Hi. rewrite Hl.
  destruct (Nat.lt_ge_cases i
              (length (drop (length (stream st) - 180) (stream st))))
    as [Hlt|Hge].
  - rewrite lookup_app_l in Hi by exact Hlt.
    rewrite lookup_drop in Hi. rewrite (Ht _ _ Hi).
    rewrite length_drop in Hlt. lia.
  - rewrite lookup_app_r in Hi by exact Hge.
    destruct (i - length (drop (length (stream st) - 180) (stream st)))%nat
      as [|k] eqn:Ek; [|destruct k; discriminate Hi].
    simpl in Hi. injection Hi as <-.
    rewrite synth_sample_t, Hnext. rewrite length_drop in Hge, Ek. lia.
Qed.

Lemma step_clock_ok a st o c :
  clock_ok st -> clock_ok (eval (step a st) o c).
Proof.
  intros Hok. destruct a; simpl; try exact Hok.
  - repeat split; simpl; try lia.
    intros i r Hi. rewrite lookup_nil in Hi. discriminate.
  - destruct (running st); [|exact Hok]. apply tick_clock_ok, Hok.
  - unfold policy. destruct (last (stream st)); [|exact Hok].
    destruct (policy_decide _ _ _ _ _). exact Hok.
Qed.

Lemma reachable_clock_ok st : reachable st -> clock_ok st.
Proof.
  revert st. apply reachable_invariant.
  - repeat split; simpl; try lia.
    intros i r Hi. rewrite lookup_nil in Hi. discriminate.
  - intros. apply step_clock_ok. assumption.
Qed.

(** X1: in every reachable state the elapsed time is the number of records
    synthesised since the last reset; the stream holds the latest
    min(time, 181) of them, and the record at index [i] carries
    [t = time - length + i] (so the latest one carries [time - 1]). *)
Theorem X1_clock_numbers_the_stream st :
  reachable st ->
  (0 <= time st)%Z
  /\ length (stream st) = Z.to_nat (Z.min (time st) 181)
  /\ (forall i r, stream st !! i = Some r ->
        s_t r = (time st - Z.of_nat (length (stream st)) + Z.of_nat i)%Z)
  /\ (forall l, last (stream st) = Some l -> s_t l = (time st - 1)%Z).
Proof.
  intros Hr. pose proof (reachable_clock_ok st Hr) as Hok.
  pose proof (clock_ok_next_t st Hok) as Hnext.
  destruct Hok as (H0 & Hlen & Ht).
  repeat split; try assumption.
  intros l Hl. unfold next_t in Hnext. rewrite Hl in Hnext. lia.
Qed.

Lemma slow_state_reachable : reachable slow_state.
Proof.
  exists ([SetParams slow_params; Start]
          ++ repeat (Tick (closure_with slow_params (sensors init) "IDLE")) 15
          ++ [Policy "2025-01-01T00:00:15.000Z"]),
    (const_oracle 0), 0%nat.
  vm_compute. reflexivity.
Qed.

Lemma X1_clock_numbers_the_stream_witness :
  time slow_state = 15%Z
  /\ length (stream slow_state) = 15%nat
  /\ s_t <$> last (stream slow_state) = Some 14%Z.
Proof.
  destruct (X1_clock_numbers_the_stream slow_state slow_state_reachable)
    as (_ & Hlen & _ & Hl).
  split; [reflexivity|]. split; [exact Hlen|].
  destruct (last (stream slow_state)) as [l|] eqn:E; [|discriminate E].
  simpl. rewrite (Hl l eq_refl). reflexivity.
Defined.

(** *** Mode and message go together *)

Ltac pick_base l :=
  lazymatch l with
  | ?b :: ?rest =>
      first [ exists b; split;
              [ simpl; tauto
              | first [left; reflexivity | right; reflexivity] ]
            | pick_base rest ]
  end.

Ltac fits :=
  unfold message_fits, with_cue;
  first [ left; split; reflexivity
        | right; left; split; [reflexivity|];
          let l := eval unfold rest_messages in rest_messages in pick_base l
        | right; right; split; [reflexivity|];
          let l := eval unfold coaching_messages in coaching_messages in
          pick_base l ].

Lemma policy_decide_fits sn p rn cur l :
  message_fits (fst (policy_decide sn p rn cur l))
               (snd (policy_decide sn p rn cur l)).
Proof.
  unfold policy_decide.
  destruct (ppg sn), (resp sn), (tpuForearm sn), (haptic sn), rn; simpl;
    repeat match goal with
           | |- context [if ?b then _ else _] => destruct b; simpl
           end; fits.
Qed.

Lemma step_message_fits a st o c :
  message_fits (mode st) (message st) ->
  let st' := eval (step a st) o c in
  message_fits (mode st') (message st').
Proof.
  intros H. cbv zeta. destruct a; try exact H.
  - left. split; reflexivity.
  - unfold step. destruct (running st); [|exact H].
    match goal with |- context [tick ?k st] =>
      destruct (tick_fields k st o c) as (_ & _ & _ & _ & -> & -> & _)
    end.
    exact H.
  - change (eval (step (Policy now) st) o c) with (policy now st).
    destruct (last (stream st)) as [l|] eqn:Hl.
    + destruct (policy_some now st l Hl) as [-> ->].
      apply policy_decide_fits.
    + rewrite policy_none by exact Hl. exact H.
Qed.

(** X2: in every reachable state the message shown goes with the mode
    shown.  In IDLE it is exactly the idle prompt (never with a haptic cue);
    in REST it is one of the two rest messages and in COACHING one of the
    four coaching messages, each with or without the haptic cue. *)
Theorem X2_message_fits_mode st :
  reachable st -> message_fits (mode st) (message st).
Proof.
  revert st. apply reachable_invariant.
  - left. split; reflexivity.
  - intros a st o c H. exact (step_message_fits a st o c H).
Qed.

Lemma X2_message_fits_mode_witness :
  mode slow_state = "COACHING"
  /\ message slow_state = "Slow down, lengthen exhale" +:+ haptic_cue
  /\ message_fits (mode slow_state) (message slow_state).
Proof.
  split; [reflexivity|]. split; [reflexivity|].
  exact (X2_message_fits_mode slow_state slow_state_reachable).
Defined.

(** *** Running the policy effect again *)

Lemma policy_notes now st l :
  last (stream st) = Some l ->
  notes (policy now st)
  = if should_log (length (stream st)) (message (policy now st))
    then notes st ++ [make_note now (mode (policy now st))
                        (message (policy now st)) l]
    else notes st.
Proof.
  intros Hl. unfold policy. rewrite Hl.
  destruct (policy_decide _ _ _ _ l) as [m co]. reflexivity.
Qed.

Lemma policy_frame now st :
  running (policy now st) = running st /\ time (policy now st) = time st
  /\ user (policy now st) = user st /\ sensors (policy now st) = sensors st
  /\ params (policy now st) = params st /\ stream (policy now st) = stream st.
Proof.
  unfold policy. destruct (last (stream st)); [|repeat split; reflexivity].
  destruct (policy_decide _ _ _ _ _). repeat split; reflexivity.
Qed.

(** X3: running the policy effect a second time on the same stream (as
    happens when its first run changed the mode, which is one of its
    dependencies) leaves mode and message as the first run set them, and,
    when the logging condition holds, writes the same log line a second
    time, with the new timestamp; otherwise the log is touched by neither
    run. *)
Theorem X3_policy_rerun now1 now2 st l :
  last (stream st) = Some l ->
  let st1 := policy now1 st in
  let st2 := policy now2 st1 in
  mode st2 = mode st1 /\ message st2 = message st1
  /\ stream st2 = stream st
  /\ (should_log (length (stream st)) (message st1) = true ->
      notes st2 = notes st ++ [make_note now1 (mode st1) (message st1) l;
                               make_note now2 (mode st1) (message st1) l])
  /\ (should_log (length (stream st)) (message st1) = false ->
      notes st2 = notes st).
Proof.
  intros Hl. cbv zeta.
  destruct (policy_frame now1 st) as (Er & _ & _ & Es & Ep & Est).
  assert (Hl1 : last (stream (policy now1 st)) = Some l)
    by (rewrite Est; exact Hl).
  destruct (policy_some now1 st l Hl) as [Em1 Emsg1].
  destruct (policy_some now2 _ l Hl1) as [Em2 Emsg2].
  rewrite Es, Ep, Er in Em2, Emsg2.
  rewrite (policy_decide_cur _ _ _ _ (mode st)) in Em2, Emsg2.
  assert (Hm : mode (policy now2 (policy now1 st)) = mode (policy now1 st))
    by congruence.
  assert (Hmsg : message (policy now2 (policy now1 st))
                 = message (policy now1 st)) by congruence.
  split; [exact Hm|]. split; [exact Hmsg|].
  split; [rewrite (proj2 (proj2 (proj2 (proj2 (proj2 (policy_frame now2 _))))));
          exact Est|].
  rewrite (policy_notes now2 _ l Hl1), (policy_notes now1 st l Hl).
  rewrite Est, Hm, Hmsg.
  split; intros ->.
  - rewrite <- app_assoc. reflexivity.
  - reflexivity.
Qed.

Lemma X3_policy_rerun_witness :
  notes demo_state = []
  /\ notes (policy "2025-01-01T00:00:01.020Z"
              (policy "2025-01-01T00:00:01.010Z" demo_state))
     = [ make_note "2025-01-01T00:00:01.010Z" "COACHING"
           ("Nice form — adding tiny challenge" +:+ haptic_cue) demo_sample;
         make_note "2025-01-01T00:00:01.020Z" "COACHING"
           ("Nice form — adding tiny challenge" +:+ haptic_cue) demo_sample ].
Proof.
  split; [reflexivity|].
  exact (proj1 (proj2 (proj2 (proj2
           (X3_policy_rerun "2025-01-01T00:00:01.010Z"
              "2025-01-01T00:00:01.020Z" demo_state demo_sample eq_refl))))
           eq_refl).
Defined.

(** *** When a log line is written *)

Lemma should_log_policy sn p rn cur l len :
  should_log len (snd (policy_decide sn p rn cur l))
  = (len mod 15 =? 0)%nat
    || ((ppg sn && gtb (s_hr l) (hrCeiling p))
        || (resp sn && gtb (s_rr l) (rrCeiling p)))
    || (negb ((ppg sn && gtb (s_hr l) (hrCeiling p))
              || (resp sn && gtb (s_rr l) (rrCeiling p)))
        && negb (tpuForearm sn && gtb (s_tremor l) (tremorRest p))
        && rn
        && negb (ltb (s_smooth l) (smoothMin p))
        && negb (gtb (Math_abs (s_grip l - gripTarget p)) 8)
        && negb (gtb (s_tremor l) (tremorWarn p))).
Proof.
  unfold should_log, policy_decide.
  destruct (len mod 15 =? 0)%nat; [reflexivity|].
  repeat (match goal with
          | |- context [if ?b then _ else _] => destruct b
          end; cbv beta iota).
  all: reflexivity.
Qed.

Lemma negb_ltb a b : negb (ltb a b) = true <-> ~ a < b.
Proof.
  rewrite negb_true_iff. split.
  - intros H Hlt. apply ltb_lt in Hlt. congruence.
  - intros H. destruct (ltb a b) eqn:E; [|reflexivity].
    apply ltb_lt in E. contradiction.
Qed.

Lemma negb_gtb a b : negb (gtb a b) = true <-> ~ b < a.
Proof. apply (negb_ltb b a). Qed.

Lemma should_log_logs_line sn p rn cur l len :
  should_log len (snd (policy_decide sn p rn cur l)) = true
  <-> logs_line sn p rn len l.
Proof.
  rewrite should_log_policy.
  pose proof (health_gate_bool sn p l) as Hh.
  pose proof (tremor_gate_bool sn p l) as Ht.
  revert Hh Ht.
  generalize ((ppg sn && gtb (s_hr l) (hrCeiling p))
              || (resp sn && gtb (s_rr l) (rrCeiling p))).
  generalize (tpuForearm sn && gtb (s_tremor l) (tremorRest p)).
  intros tb hb Hh Ht.
  unfold logs_line, good_form, Math_abs.
  rewrite !orb_true_iff, !andb_true_iff, Nat.eqb_eq.
  rewrite negb_ltb, !negb_gtb, !negb_true_iff.
  rewrite <- Hh, <- Ht.
  destruct hb, tb; intuition congruence.
Qed.

Lemma appends_line_iff now st l :
  last (stream st) = Some l ->
  appends_line now st
  <-> should_log (length (stream st)) (message (policy now st)) = true.
Proof.
  intros Hl. unfold appends_line. rewrite (policy_notes now st l Hl).
  destruct (should_log _ _).
  - split; [reflexivity | intros _; eexists; reflexivity].
  - split; [|discriminate]. intros [n Hn].
    apply (f_equal length) in Hn. rewrite length_app in Hn. simpl in Hn. lia.
Qed.

(** X4: a policy step with a latest sample adds a line to the log exactly
    when the stream length is a multiple of 15, or the health gate stops
    the session, or the coach praises (no gate, running, and nothing to
    correct).  A tremor rest, a correction cue and an idle step are logged
    on every fifteenth stream length only. *)
Theorem X4_when_a_line_is_logged now st l :
  last (stream st) = Some l ->
  appends_line now st
  <-> logs_line (sensors st) (params st) (running st)
        (length (stream st)) l.
Proof.
  intros Hl. rewrite (appends_line_iff now st l Hl).
  destruct (policy_some now st l Hl) as [_ ->].
  apply should_log_logs_line.
Qed.

Lemma X4_when_a_line_is_logged_witness :
  (length (stream demo_state) mod 15)%nat = 1%nat
  /\ appends_line "2025-01-01T00:00:01.010Z" demo_state.
Proof.
  split; [reflexivity|].
  apply (X4_when_a_line_is_logged _ demo_state demo_sample eq_refl).
  right. right.
  split; [rewrite <- health_gate_bool; vm_compute; discriminate|].
  split; [rewrite <- tremor_gate_bool; vm_compute; discriminate|].
  split; [reflexivity|].
  unfold good_form.
  rewrite <- negb_ltb, <- !negb_gtb. vm_compute. repeat split.
Defined.

(** X5: once the stream window is full (181 seconds after the last reset)
    its length stays at 181, which is not a multiple of 15: from then on a
    policy step logs only a health stop or praise, and the periodic line is
    never written again. *)
Theorem X5_periodic_log_stops now st l :
  reachable st -> (181 <= time st)%Z -> last (stream st) = Some l ->
  length (stream st) = 181%nat
  /\ (appends_line now st
      <-> health_gate (sensors st) (params st) l
          \/ (~ health_gate (sensors st) (params st) l
              /\ ~ tremor_gate (sensors st) (params st) l
              /\ running st = true /\ good_form (params st) l)).
Proof.
  intros Hr Ht Hl.
  destruct (reachable_clock_ok st Hr) as (_ & Hlen & _).
  assert (H181 : length (stream st) = 181%nat) by lia.
  split; [exact H181|].
  rewrite (appends_line_iff now st l Hl).
  destruct (policy_some now st l Hl) as [_ ->].
  rewrite should_log_logs_line, H181. unfold logs_line.
  split.
  - intros [H|H]; [discriminate H | exact H].
  - intros H. right. exact H.
Qed.

Lemma full_state_reachable : reachable full_state.
Proof.
  exists (Start :: repeat (Tick (capture init)) 185),
    (const_oracle (1 # 2)), 0%nat.
  vm_compute. reflexivity.
Qed.

Lemma X5_periodic_log_stops_witness :
  time full_state = 185%Z
  /\ length (stream full_state) = 181%nat
  /\ appends_line "2025-01-01T00:03:05.000Z" full_state.
Proof.
  destruct (last (stream full_state)) as [l|] eqn:El; [|discriminate El].
  assert (Ht : (181 <= time full_state)%Z) by (vm_compute; discriminate).
  destruct (X5_periodic_log_stops "2025-01-01T00:03:05.000Z" full_state l
              full_state_reachable Ht El) as [Hlen Hiff].
  split; [reflexivity|]. split; [exact Hlen|].
  apply Hiff. right.
  vm_compute in El. injection El as <-.
  split; [rewrite <- health_gate_bool; vm_compute; discriminate|].
  split; [rewrite <- tremor_gate_bool; vm_compute; discriminate|].
  split; [reflexivity|].
  unfold good_form.
  rewrite <- negb_ltb, <- !negb_gtb. vm_compute. repeat split.
Defined.

(** *** The utilities [clamp] and [rnd] *)

Lemma Math_min_ub_r a b : Math_min a b <= b.
Proof.
  unfold Math_min. destruct (ltb b a) eqn:E.
  - apply Qle_refl.
  - apply Qnot_lt_le. intros H. apply ltb_lt in H. congruence.
Qed.

Lemma clamp_le v lo hi B : v <= B -> lo <= B -> clamp v lo hi <= B.
Proof.
  intros Hv Hlo. unfold clamp. apply Math_max_lub; [exact Hlo|].
  apply Qle_trans with v; [apply Math_min_ub_r | exact Hv].
Qed.

Lemma gtb_false_iff a b : gtb a b = false <-> a <= b.
Proof. unfold gtb. rewrite negb_false_iff. apply Qle_bool_iff. Qed.

Lemma ltb_false_iff a b : ltb a b = false <-> b <= a.
Proof. apply (gtb_false_iff b a). Qed.

(** Case analysis on every comparison of the goal, each case recorded as
    an order fact. *)
Ltac compare_cases :=
  repeat match goal with
         | |- context [ltb ?a ?b] =>
             let E := fresh "E" in
             destruct (ltb a b) eqn:E;
             [apply ltb_lt in E | apply ltb_false_iff in E]
         end;
  repeat match goal with
         | |- context [gtb ?a ?b] =>
             let E := fresh "E" in
             destruct (gtb a b) eqn:E;
             [apply gtb_lt in E | apply gtb_false_iff in E]
         end.

(** X11: [clamp] returns its argument (up to numeric equality) when it
    lies between the bounds, the lower bound when it is below and the upper
    bound when it is above; with the bounds in the wrong order it returns
    the lower bound whatever the argument. *)
Theorem X11_clamp_cases v lo hi :
  (lo <= v -> v <= hi -> clamp v lo hi == v)
  /\ (v < lo -> lo <= hi -> clamp v lo hi == lo)
  /\ (hi < v -> lo <= hi -> clamp v lo hi == hi)
  /\ (hi < lo -> clamp v lo hi = lo).
Proof.
  unfold clamp, Math_max, Math_min.
  repeat split; intros; compare_cases; try reflexivity; lra.
Qed.

Lemma X11_clamp_cases_witness :
  clamp (7 # 10) 0 1 == 7 # 10 /\ clamp (- (1 # 2)) 0 1 == 0
  /\ clamp 250 50 200 == 200 /\ clamp 5 10 0 = 10.
Proof.
  destruct (X11_clamp_cases (7 # 10) 0 1) as (H1 & _).
  destruct (X11_clamp_cases (- (1 # 2)) 0 1) as (_ & H2 & _).
  destruct (X11_clamp_cases 250 50 200) as (_ & _ & H3 & _).
  destruct (X11_clamp_cases 5 10 0) as (_ & _ & _ & H4).
  split; [apply H1; discriminate|].
  split; [apply H2; [reflexivity | discriminate]|].
  split; [apply H3; [reflexivity | discriminate]|].
  apply H4. reflexivity.
Defined.


Lemma unit_draws_const d : 0 <= d -> d < 1 -> unit_draws (const_oracle d).
Proof. intros H0 H1 i. split; assumption. Qed.


(** *** What the synthesis can produce *)

(** The main signals of a synthesised record, draw by draw. *)
Lemma synth_sample_fields cl arr o c :
  let r := eval (synth_sample cl arr) o c in
  let u := c_user cl in
  let p := c_params cl in
  s_smooth r
  = clamp (rnd_of (smoothnessBase u) (15 # 100) (o c) * difficulty p) 0 1
  /\ s_tremor r
     = clamp (rnd_of (tremorBase u) (2 # 10) (o (1 + c)%nat)
              * ((115 # 100) - s_smooth r)) 0 1
  /\ s_grip r
     = clamp (rnd_of (gripTarget p) 6 (o (6 + c)%nat)
              * (if forcePads (c_sensors cl) then 1 else 0)
              * (if String.eqb (c_mode cl) "REST" then 6 # 10 else 1))
             0 (gripMax u)
  /\ s_hr r
     = clamp (rnd_of (hrRest u
                      + difficulty p * 25
                        * (if ltb (s_smooth r) (55 # 100) then 1 else 6 # 10))
                     4 (o (10 + c)%nat)) 50 200
  /\ s_rr r
     = clamp (rnd_of (rrRest u + (s_hr r - hrRest u) / 20) (14 # 10)
                     (o (11 + c)%nat)) 6 35.
Proof. cbv zeta. repeat split; reflexivity. Qed.

Lemma synth_sample_channels cl arr o c :
  c_user cl = defaultUserModel ->
  channels_in_bounds (eval (synth_sample cl arr) o c).
Proof.
  intros Hu. unfold channels_in_bounds.
  assert (H30 : forall v, 0 <= clamp v 0 (gripMax (c_user cl) / 2) <= 30).
  { intros v. rewrite Hu.
    destruct (clamp_bounds v 0 (gripMax defaultUserModel / 2)) as [Hlo Hhi];
      [discriminate|].
    split; [exact Hlo|].
    apply Qle_trans with (gripMax defaultUserModel / 2);
      [exact Hhi | discriminate]. }
  split; [|split; [|split]].
  - do 3 eexists. split; [reflexivity|].
    repeat apply conj; apply clamp_bounds; discriminate.
  - apply clamp_bounds. discriminate.
  - do 3 eexists. split; [reflexivity|].
    split; [apply H30|]. split; [apply H30|].
    apply clamp_bounds. discriminate.
  - apply clamp_bounds. discriminate.
Qed.

Lemma step_channels a st o c :
  user st = defaultUserModel /\ Forall channels_in_bounds (stream st) ->
  let st' := eval (step a st) o c in
  user st' = defaultUserModel /\ Forall channels_in_bounds (stream st').
Proof.
  intros [Hu Hb]. cbv zeta. destruct a; try (split; assumption).
  - split; [assumption | constructor].
  - unfold step. destruct (running st); [|split; assumption].
    match goal with |- context [tick ?k st] =>
      destruct (tick_fields k st o c)
        as (_ & -> & _ & _ & _ & _ & _ & _ & ->)
    end.
    split; [assumption|].
    rewrite synth_stream_eval. apply Forall_app. split.
    + unfold slice_last. apply Forall_drop, Hb.
    + constructor; [|constructor].
      apply synth_sample_channels. exact Hu.
  - change (eval (step (Policy now) st) o c) with (policy now st).
    destruct (policy_frame now st) as (_ & _ & -> & _ & _ & ->).
    split; assumption.
Qed.

(** X6: the secondary channels of every record in the stream of a
    reachable state are within their clamp ranges, whatever jitter was
    drawn: three strain values in [0, 1], the EMG envelope in [0, 1], three
    force readings, the first two in [0, 30] (half of gripMax) and the
    third in [0, 45], and the respiration signal in [0, 1.2]. *)
Theorem X6_channel_bounds st r :
  reachable st -> In r (stream st) -> channels_in_bounds r.
Proof.
  intros Hr Hin.
  assert (H : user st = defaultUserModel
              /\ Forall channels_in_bounds (stream st)).
  { revert st Hr Hin. intros st Hr _. revert st Hr.
    apply reachable_invariant.
    - split; [reflexivity | constructor].
    - intros a st o c H. apply (step_channels a st o c H). }
  destruct H as [_ Hb]. rewrite Forall_forall in Hb. apply Hb.
  apply list_elem_of_In. exact Hin.
Qed.

Lemma X6_channel_bounds_witness :
  s_fsr demo_sample = [484000 # 40000; 372000 # 40000; 320 # 20]
  /\ channels_in_bounds demo_sample.
Proof.
  split; [reflexivity|].
  apply (X6_channel_bounds demo_state demo_sample demo_state_reachable).
  left. reflexivity.
Defined.

(** X7: with the force pads switched off the synthesised grip force is
    exactly 0, whatever the jitter, the grip target and the mode. *)
Theorem X7_no_pads_no_grip cl arr o c :
  forcePads (c_sensors cl) = false ->
  s_grip (eval (synth_sample cl arr) o c) = 0.
Proof.
  intros Hf.
  destruct (synth_sample_fields cl arr o c) as (_ & _ & -> & _).
  rewrite Hf. unfold clamp.
  set (v := rnd_of _ _ _ * 0 * _).
  assert (Hv : v == 0) by (unfold v; ring).
  unfold Math_max. destruct (gtb (Math_min _ v) 0) eqn:E; [|reflexivity].
  apply gtb_lt in E. pose proof (Math_min_ub_r (gripMax (c_user cl)) v).
  lra.
Qed.

Lemma X7_no_pads_no_grip_witness :
  let sn := {| tpuForearm := true; tpuBicep := true; tpuShoulder := true;
               forcePads := false; imu := true; ppg := true; resp := true;
               haptic := true |} in
  s_grip (eval (synth_sample (closure_with (params init) sn "IDLE") [])
            (const_oracle (1 # 2)) 0) = 0.
Proof.
  cbv zeta. apply X7_no_pads_no_grip. reflexivity.
Defined.

Lemma hr_ceiling cl arr o c :
  unit_draws o -> c_user cl = defaultUserModel ->
  0 <= difficulty (c_params cl) ->
  s_hr (eval (synth_sample cl arr) o c)
  <= 76 + 25 * difficulty (c_params cl).
Proof.
  intros Ho Hu Hd.
  destruct (synth_sample_fields cl arr o c) as (_ & _ & _ & -> & _).
  rewrite Hu. cbn [hrRest defaultUserModel].
  destruct (Ho (10 + c)%nat) as [H0 H1].
  apply clamp_le; [|lra]. unfold rnd_of.
  destruct (ltb _ _); lra.
Qed.

Lemma rr_ceiling cl arr o c :
  unit_draws o -> c_user cl = defaultUserModel ->
  0 <= difficulty (c_params cl) ->
  s_rr (eval (synth_sample cl arr) o c)
  <= (136 # 10) + (125 # 100) * difficulty (c_params cl).
Proof.
  intros Ho Hu Hd. pose proof (hr_ceiling cl arr o c Ho Hu Hd) as Hhr.
  destruct (synth_sample_fields cl arr o c) as (_ & _ & _ & _ & ->).
  rewrite Hu. cbn [hrRest rrRest defaultUserModel].
  destruct (Ho (11 + c)%nat) as [H0 H1].
  apply clamp_le; [|lra]. unfold rnd_of, Qdiv.
  change (/ 20) with (1 # 20). lra.
Qed.

Lemma tremor_ceiling cl arr o c :
  unit_draws o -> c_user cl = defaultUserModel ->
  s_tremor (eval (synth_sample cl arr) o c) <= 4025 # 10000.
Proof.
  intros Ho Hu.
  destruct (synth_sample_in_bounds cl arr o c Hu) as (Hs & _).
  destruct (synth_sample_fields cl arr o c) as (_ & Et & _).
  rewrite Et, Hu. cbn [tremorBase defaultUserModel].
  destruct (Ho (1 + c)%nat) as [H0 H1].
  apply clamp_le; [|discriminate]. unfold rnd_of. nra.
Qed.


Lemma unit_draws_half : unit_draws (const_oracle (1 # 2)).
Proof. apply unit_draws_const; [discriminate | reflexivity]. Qed.


(** X10: when the policy ceilings lie above what the synthesis can reach
    (hrCeiling at least 76 + 25 * difficulty, rrCeiling at least
    13.6 + 1.25 * difficulty, tremorRest at least 0.4025), no synthesised
    sample trips a gate: the policy step yields COACHING when running and
    IDLE when not, never REST.  The default parameters (difficulty 1,
    ceilings 120, 20 and 0.55) are such. *)
Theorem X10_no_rest_under_ceilings now st cl arr o c :
  unit_draws o -> c_user cl = defaultUserModel ->
  0 <= difficulty (c_params cl) ->
  last (stream st) = Some (eval (synth_sample cl arr) o c) ->
  76 + 25 * difficulty (c_params cl) <= hrCeiling (params st) ->
  (136 # 10) + (125 # 100) * difficulty (c_params cl)
    <= rrCeiling (params st) ->
  4025 # 10000 <= tremorRest (params st) ->
  mode (policy now st) = (if running st then "COACHING" else "IDLE").
Proof.
  intros Ho Hu Hd Hl Hhr Hrr Htr.
  pose proof (hr_ceiling cl arr o c Ho Hu Hd) as Bh.
  pose proof (rr_ceiling cl arr o c Ho Hu Hd) as Br.
  pose proof (tremor_ceiling cl arr o c Ho Hu) as Bt.
  destruct (policy_some now st _ Hl) as [-> _].
  rewrite policy_decide_mode.
  assert (E1 : gtb (s_hr (eval (synth_sample cl arr) o c))
                   (hrCeiling (params st)) = false)
    by (apply gtb_false_iff; lra).
  assert (E2 : gtb (s_rr (eval (synth_sample cl arr) o c))
                   (rrCeiling (params st)) = false)
    by (apply gtb_false_iff; lra).
  assert (E3 : gtb (s_tremor (eval (synth_sample cl arr) o c))
                   (tremorRest (params st)) = false)
    by (apply gtb_false_iff; lra).
  rewrite E1, E2, E3, !andb_false_r. reflexivity.
Qed.

Lemma X10_no_rest_under_ceilings_witness :
  params demo_state = params init
  /\ mode (policy "2025-01-01T00:00:01.000Z" demo_state) = "COACHING".
Proof.
  split; [reflexivity|].
  refine (X10_no_rest_under_ceilings "2025-01-01T00:00:01.000Z" demo_state
            (capture init) [] (const_oracle (1 # 2)) 0
            unit_draws_half eq_refl _ eq_refl _ _ _);
    vm_compute; discriminate.
Defined.

(** *** The grip cue and the out-of-the-box run *)

Lemma Math_max_ge_r a b : b <= Math_max a b.
Proof.
  unfold Math_max. destruct (gtb b a) eqn:E.
  - apply Qle_refl.
  - apply gtb_false_iff, E.
Qed.

Lemma clamp_ge v lo hi B : B <= v -> B <= hi -> B <= clamp v lo hi.
Proof.
  intros Hv Hhi. unfold clamp.
  apply Qle_trans with (Math_min hi v); [|apply Math_max_ge_r].
  unfold Math_min. destruct (ltb v hi); assumption.
Qed.

Lemma grip_near_target cl arr o c :
  unit_draws o -> c_user cl = defaultUserModel ->
  forcePads (c_sensors cl) = true -> c_mode cl <> "REST" ->
  0 <= gripTarget (c_params cl) <= 60 ->
  Qabs (s_grip (eval (synth_sample cl arr) o c) - gripTarget (c_params cl))
  <= 6.
Proof.
  intros Ho Hu Hf Hm [H0 H60].
  destruct (synth_sample_fields cl arr o c) as (_ & _ & -> & _).
  apply String.eqb_neq in Hm. rewrite Hf, Hm, Hu.
  cbn [gripMax defaultUserModel].
  destruct (Ho (6 + c)%nat) as [Hd0 Hd1].
  set (g := gripTarget (c_params cl)) in *.
  set (d := o (6 + c)%nat) in *.
  apply Qabs_Qle_condition. unfold clamp, Math_max, Math_min, rnd_of.
  compare_cases; split; lra.
Qed.

Lemma grip_cue_given sn p rn cur l :
  with_cue [grip_cue] (snd (policy_decide sn p rn cur l)) ->
  gtb (Math_abs (s_grip l - gripTarget p)) 8 = true.
Proof.
  unfold policy_decide.
  repeat (match goal with
          | |- context [if ?b then _ else _] => destruct b
          end; cbv beta iota).
  all: try (intros _; reflexivity).
  all: intros (b & [<-|[]] & [H|H]); cbv in H; discriminate H.
Qed.

(** X23: with the force pads on, outside a REST closure and with a grip
    target between 0 and 60, the synthesised grip is always within 6 N of
    the target the interval closed over; so, as long as the policy reads
    that same target, its grip cue (threshold 8 N) is never given. *)
Theorem X23_grip_cue_needs_stale_target now st cl arr o c :
  unit_draws o -> c_user cl = defaultUserModel ->
  forcePads (c_sensors cl) = true -> c_mode cl <> "REST" ->
  0 <= gripTarget (c_params cl) <= 60 ->
  gripTarget (params st) = gripTarget (c_params cl) ->
  last (stream st) = Some (eval (synth_sample cl arr) o c) ->
  Qabs (s_grip (eval (synth_sample cl arr) o c) - gripTarget (c_params cl))
    <= 6
  /\ ~ with_cue [grip_cue] (message (policy now st)).
Proof.
  intros Ho Hu Hf Hm Hg Hsame Hl.
  pose proof (grip_near_target cl arr o c Ho Hu Hf Hm Hg) as Hnear.
  split; [exact Hnear|].
  destruct (policy_some now st _ Hl) as [_ ->].
  intros Hcue. apply grip_cue_given in Hcue. apply gtb_lt in Hcue.
  rewrite Hsame in Hcue. unfold Math_abs in Hcue. lra.
Qed.

Lemma X23_grip_cue_needs_stale_target_witness :
  s_grip demo_sample == 18
  /\ ~ with_cue [grip_cue]
         (message (policy "2025-01-01T00:00:01.000Z" demo_state)).
Proof.
  split; [reflexivity|].
  refine (proj2 (X23_grip_cue_needs_stale_target
                   "2025-01-01T00:00:01.000Z" demo_state (capture init) []
                   (const_oracle (1 # 2)) 0
                   unit_draws_half eq_refl eq_refl _ _ eq_refl eq_refl)).
  - discriminate.
  - split; discriminate.
Defined.

Ltac default_params :=
  cbn [init params hrCeiling rrCeiling tremorRest tremorWarn smoothMin
       gripTarget].

(** X24: out of the box the coach only ever praises.  With the default
    parameters, the force pads on and no REST closure, every synthesised
    sample passes all gates and all three form checks: a policy step while
    running yields COACHING with the message "Nice form — adding tiny
    challenge" (followed by the haptic cue when haptics are on), and logs
    it, at every step. *)
Theorem X24_default_run_only_praises now st sn md arr o c :
  unit_draws o -> forcePads sn = true -> md <> "REST" ->
  params st = params init -> running st = true ->
  last (stream st)
  = Some (eval (synth_sample (closure_with (params init) sn md) arr) o c) ->
  mode (policy now st) = "COACHING"
  /\ message (policy now st)
     = (if haptic (sensors st) then praise +:+ haptic_cue else praise)
  /\ appends_line now st.
Proof.
  intros Ho Hf Hm Hp Hrun Hl.
  set (cl := closure_with (params init) sn md) in *.
  set (r := eval (synth_sample cl arr) o c) in *.
  assert (Hd : 0 <= difficulty (c_params cl)) by discriminate.
  pose proof (hr_ceiling cl arr o c Ho eq_refl Hd) as Bh.
  pose proof (rr_ceiling cl arr o c Ho eq_refl Hd) as Br.
  assert (Hg : 0 <= gripTarget (c_params cl) <= 60)
    by (split; discriminate).
  pose proof (grip_near_target cl arr o c Ho eq_refl Hf Hm Hg) as Bg.
  destruct (synth_sample_fields cl arr o c) as (Es & Et & _).
  fold r in Bh, Br, Bg, Es, Et.
  cbn [cl closure_with c_params c_user params init difficulty gripTarget
       smoothnessBase tremorBase defaultUserModel] in Bh, Br, Bg, Es, Et.
  clear Hd Hg. clearbody r. clear cl.
  assert (Bs : 55 # 100 <= s_smooth r).
  { rewrite Es. destruct (Ho c) as [H0 H1].
    apply clamp_ge; [|discriminate]. unfold rnd_of. lra. }
  assert (Bs1 : s_smooth r <= 1).
  { rewrite Es. apply clamp_bounds. discriminate. }
  assert (Bt : s_tremor r <= 21 # 100).
  { rewrite Et. destruct (Ho (1 + c)%nat) as [H0 H1].
    apply clamp_le; [|discriminate]. unfold rnd_of. nra. }
  assert (E1 : gtb (s_hr r) (hrCeiling (params st)) = false)
    by (rewrite Hp; apply gtb_false_iff; default_params; lra).
  assert (E2 : gtb (s_rr r) (rrCeiling (params st)) = false)
    by (rewrite Hp; apply gtb_false_iff; default_params; lra).
  assert (E3 : gtb (s_tremor r) (tremorRest (params st)) = false)
    by (rewrite Hp; apply gtb_false_iff; default_params; lra).
  assert (E4 : ltb (s_smooth r) (smoothMin (params st)) = false)
    by (rewrite Hp; apply ltb_false_iff; default_params; lra).
  assert (E5 : gtb (Math_abs (s_grip r - gripTarget (params st))) 8 = false)
    by (rewrite Hp; apply gtb_false_iff; unfold Math_abs; default_params;
        lra).
  assert (E6 : gtb (s_tremor r) (tremorWarn (params st)) = false)
    by (rewrite Hp; apply gtb_false_iff; default_params; lra).
  assert (Hpd : policy_decide (sensors st) (params st) (running st) (mode st) r
                = ("COACHING",
                   if haptic (sensors st) then praise +:+ haptic_cue
                   else praise)).
  { unfold policy_decide. rewrite E1, E2, E3, E4, E5, E6, Hrun, !andb_false_r.
    cbv beta iota. destruct (haptic (sensors st)); reflexivity. }
  destruct (policy_some now st r Hl) as [Hmode Hmsg].
  rewrite Hpd in Hmode, Hmsg. cbn [fst snd] in Hmode, Hmsg.
  split; [exact Hmode|]. split; [exact Hmsg|].
  apply (appends_line_iff now st r Hl). rewrite Hmsg. unfold should_log.
  destruct (length (stream st) mod 15 =? 0)%nat; [reflexivity|].
  destruct (haptic (sensors st)); reflexivity.
Qed.

Lemma X24_default_run_only_praises_witness :
  message (policy "2025-01-01T00:00:01.000Z" demo_state)
  = praise +:+ haptic_cue
  /\ appends_line "2025-01-01T00:00:01.000Z" demo_state.
Proof.
  refine (proj2 (X24_default_run_only_praises
                   "2025-01-01T00:00:01.000Z" demo_state (sensors init) "IDLE"
                   [] (const_oracle (1 # 2)) 0
                   unit_draws_half eq_refl _ eq_refl eq_refl eq_refl)).
  discriminate.
Defined.

End AppMoreProofs.

(** * Further properties of the sensor-layout editor *)
Module LayoutMoreProofs.
Import LayoutPane TPUTrace LayoutProofs.

Lemma handle_all_app evs1 evs2 pn :
  handle_all (evs1 ++ evs2) pn = handle_all evs2 (handle_all evs1 pn).
Proof. unfold handle_all. apply fold_left_app. Qed.

Lemma moves_without_drag es pn :
  dragging pn = None -> handle_all (map Move es) pn = pn.
Proof.
  intros Hd. induction es as [|e es IH]; [reflexivity|].
  change (handle_all (map Move (e :: es)) pn)
    with (handle_all (map Move es) (onMove e pn)).
  unfold onMove. rewrite Hd. exact IH.
Qed.

Lemma last_cons_default {A} (l : list A) :
  forall a d, List.last (a :: l) d = List.last l a.
Proof.
  induction l as [|b l IH]; intros a d; [reflexivity|].
  change (List.last (a :: b :: l) d) with (List.last (b :: l) d).
  rewrite (IH b d), (IH b a). reflexivity.
Qed.

Lemma onMove_points e pn d :
  dragging pn = Some d ->
  (forall i p, points pn !! i = Some p -> p_id p = d_id d ->
      points (onMove e pn) !! i
      = Some {| p_id := p_id p; p_x := p_x p + (clientX e - ox d);
                p_y := p_y p + (clientY e - oy d) |})
  /\ (forall i p, points pn !! i = Some p -> p_id p <> d_id d ->
        points (onMove e pn) !! i = Some p)
  /\ length (points (onMove e pn)) = length (points pn)
  /\ dragging (onMove e pn)
     = Some {| d_id := d_id d; ox := clientX e; oy := clientY e |}.
Proof.
  intros Hd. unfold onMove. rewrite Hd. simpl. repeat split.
  - intros i p Hi Hp. rewrite list_lookup_fmap, Hi. simpl.
    rewrite move_point_hit by exact Hp. reflexivity.
  - intros i p Hi Hp. rewrite list_lookup_fmap, Hi. simpl.
    rewrite move_point_miss by exact Hp. reflexivity.
  - apply length_map.
Qed.

(** Successive moves add up: after the moves [es] of a drag that started at
    [e0], the held marker is displaced by the difference between the last
    position and [e0]. *)
Lemma moves_telescope es : forall pn id e0,
  dragging pn = Some {| d_id := id; ox := clientX e0; oy := clientY e0 |} ->
  let en := List.last es e0 in
  let pn' := handle_all (map Move es) pn in
  dragging pn' = Some {| d_id := id; ox := clientX en; oy := clientY en |}
  /\ forall i p, points pn !! i = Some p ->
       exists p', points pn' !! i = Some p' /\ p_id p' = p_id p
         /\ (p_id p = id ->
             p_x p' == p_x p + (clientX en - clientX e0)
             /\ p_y p' == p_y p + (clientY en - clientY e0))
         /\ (p_id p <> id -> p' = p).
Proof.
  induction es as [|e es IH]; intros pn id e0 Hd; cbv zeta.
  - split; [exact Hd|]. intros i p Hi. exists p.
    repeat split; try assumption; simpl; lra.
  - change (handle_all (map Move (e :: es)) pn)
      with (handle_all (map Move es) (onMove e pn)).
    rewrite last_cons_default.
    destruct (onMove_points e pn _ Hd) as (Hhit & Hmiss & _ & Hd1).
    cbn [d_id ox oy] in Hhit, Hmiss, Hd1.
    destruct (IH (onMove e pn) id e Hd1) as [Hdn Hpts].
    split; [exact Hdn|].
    intros i p Hi.
    destruct (String.eqb_spec (p_id p) id) as [Heq|Hne].
    + destruct (Hpts i _ (Hhit i p Hi Heq)) as (p' & Hp' & Hid & Hmv & _).
      exists p'. split; [exact Hp'|]. split; [exact Hid|].
      split; [|contradiction].
      intros _. destruct (Hmv Heq) as [Hx Hy]. cbn [p_x p_y] in Hx, Hy.
      split; lra.
    + destruct (Hpts i _ (Hmiss i p Hi Hne)) as (p' & Hp' & Hid & _ & Hst).
      exists p'. split; [exact Hp'|]. split; [exact Hid|].
      split; [contradiction|]. intros _. apply Hst, Hne.
Qed.

(** X12: a whole drag gesture (press on a marker at [e0], any moves, the
    release, then any moves with no button held) displaces the pressed
    marker by the difference between the last position of the drag and
    [e0], however the mouse travelled in between; it leaves every other
    marker as it was and ends with no drag in progress, so that the later
    moves change nothing. *)
Theorem X12_gesture_displacement pn id e0 es stray :
  let en := List.last es e0 in
  let pn' := handle_all (gesture id e0 es stray) pn in
  dragging pn' = None
  /\ forall i p, points pn !! i = Some p ->
       exists p', points pn' !! i = Some p' /\ p_id p' = p_id p
         /\ (p_id p = id ->
             p_x p' == p_x p + (clientX en - clientX e0)
             /\ p_y p' == p_y p + (clientY en - clientY e0))
         /\ (p_id p <> id -> p' = p).
Proof.
  cbv zeta. unfold gesture.
  change (handle_all (Down id e0 :: map Move es ++ Up :: map Move stray) pn)
    with (handle_all (map Move es ++ Up :: map Move stray) (onDown id e0 pn)).
  rewrite handle_all_app.
  destruct (moves_telescope es (onDown id e0 pn) id e0 eq_refl)
    as [Hd Hpts].
  set (pn1 := handle_all (map Move es) (onDown id e0 pn)) in *.
  change (handle_all (Up :: map Move stray) pn1)
    with (handle_all (map Move stray) (onUp pn1)).
  rewrite moves_without_drag by reflexivity.
  split; [reflexivity|]. exact Hpts.
Qed.

Lemma X12_gesture_displacement_witness :
  points init !! 3%nat = Some {| p_id := "wrist"; p_x := 330; p_y := 200 |}
  /\ exists p', points wrist_at_edge !! 3%nat = Some p'
       /\ p_x p' == 0 /\ p_y p' == 200.
Proof.
  split; [reflexivity|].
  destruct (proj2 (X12_gesture_displacement init "wrist"
                     {| clientX := 330; clientY := 200 |}
                     [{| clientX := 100; clientY := 180 |};
                      {| clientX := 0; clientY := 200 |}]
                     [{| clientX := 50; clientY := 50 |}])
              3%nat {| p_id := "wrist"; p_x := 330; p_y := 200 |} eq_refl)
    as (p' & Hp' & _ & Hmv & _).
  exists p'. split; [exact Hp'|].
  destruct (Hmv eq_refl) as [Hx Hy]. simpl in Hx, Hy. split; lra.
Defined.

(** *** The markers and what is drawn over them *)

Lemma reachable_markers pn :
  reachable pn ->
  exists s b f w i pp r,
    points pn = [s; b; f; w; i; pp; r]
    /\ p_id s = "shoulder" /\ p_id b = "bicep" /\ p_id f = "forearm"
    /\ p_id w = "wrist" /\ p_id i = "imu" /\ p_id pp = "ppg"
    /\ p_id r = "resp".
Proof.
  intros Hr. pose proof (reachable_ids pn Hr) as H.
  destruct (points pn) as [|s [|b [|f [|w [|i [|pp [|r [|x l]]]]]]]];
    try discriminate H.
  simpl in H. injection H as Hs Hb Hf Hw Hi Hp Hrs.
  exists s, b, f, w, i, pp, r. repeat split; assumption.
Qed.

(** X13: no pointer event adds, removes, renames or reorders a marker: in
    every reachable pane the markers are the seven initial ones, in the
    initial order. *)
Theorem X13_markers_keep_identity pn :
  reachable pn ->
  map p_id (points pn) = marker_ids /\ length (points pn) = 7%nat.
Proof.
  intros Hr. pose proof (reachable_ids pn Hr) as H. split; [exact H|].
  apply (f_equal (@length string)) in H. rewrite length_map in H. exact H.
Qed.

Lemma wrist_at_edge_reachable : reachable wrist_at_edge.
Proof. eexists. reflexivity. Qed.

Lemma X13_markers_keep_identity_witness :
  points wrist_at_edge <> points init
  /\ map p_id (points wrist_at_edge) = marker_ids.
Proof.
  split; [discriminate|].
  exact (proj1 (X13_markers_keep_identity wrist_at_edge
                  wrist_at_edge_reachable)).
Defined.

(** X14: in every reachable pane the strain trace is a polyline of
    exactly four vertices: the current shoulder, bicep, forearm and wrist
    markers, in this order, whatever their positions. *)
Theorem X14_trace_vertices pn :
  reachable pn ->
  exists s b f w,
    vertices (points pn) = [s; b; f; w]
    /\ points pn !! 0%nat = Some s /\ points pn !! 1%nat = Some b
    /\ points pn !! 2%nat = Some f /\ points pn !! 3%nat = Some w
    /\ forall show,
         coords show (points pn)
         = show (p_x s) +:+ "," +:+ show (p_y s) +:+ " "
           +:+ show (p_x b) +:+ "," +:+ show (p_y b) +:+ " "
           +:+ show (p_x f) +:+ "," +:+ show (p_y f) +:+ " "
           +:+ show (p_x w) +:+ "," +:+ show (p_y w).
Proof.
  intros Hr.
  destruct (reachable_markers pn Hr)
    as (s & b & f & w & i & pp & r & E & Hs & Hb & Hf & Hw & Hi & Hp & Hrs).
  exists s, b, f, w. rewrite E.
  assert (Hv : vertices [s; b; f; w; i; pp; r] = [s; b; f; w]).
  { unfold vertices, order, find_point. simpl.
    rewrite Hs, Hb, Hf, Hw. reflexivity. }
  split; [exact Hv|]. repeat split.
  intros show. unfold coords. rewrite Hv. simpl.
  rewrite !CsvProofs.append_assoc. reflexivity.
Qed.

Lemma X14_trace_vertices_witness :
  vertices (points wrist_at_edge)
  = [ {| p_id := "shoulder"; p_x := 110; p_y := 70 |};
      {| p_id := "bicep"; p_x := 170; p_y := 90 |};
      {| p_id := "forearm"; p_x := 260; p_y := 150 |};
      {| p_id := "wrist"; p_x := 330 + (100 - 330) + (0 - 100);
         p_y := 200 + (180 - 200) + (200 - 180) |} ].
Proof.
  destruct (X14_trace_vertices wrist_at_edge wrist_at_edge_reachable)
    as (s & b & f & w & -> & Hs & Hb & Hf & Hw & _).
  injection Hs as <-. injection Hb as <-. injection Hf as <-.
  injection Hw as <-. reflexivity.
Defined.

Lemma truthy_iff x : JS.truthy x = true <-> ~ x == 0.
Proof.
  unfold JS.truthy. rewrite negb_true_iff. split.
  - intros H E. apply Qeq_bool_iff in E. congruence.
  - intros H. destruct (Qeq_bool x 0) eqn:E; [|reflexivity].
    apply Qeq_bool_iff in E. contradiction.
Qed.

(** X15: in every reachable pane each shape drawn over the layout (IMU
    puck, grip pad, stance pad, PPG patch) is placed from its own marker,
    which is always found; but a marker coordinate that is exactly 0 counts
    as missing, and the shape's built-in default is used for it instead. *)
Theorem X15_shapes_follow_markers pn f id dflt :
  reachable pn -> In id marker_ids ->
  exists p,
    In p (points pn) /\ p_id p = id
    /\ (~ f p == 0 -> coord_or f id dflt (points pn) = f p)
    /\ (f p == 0 -> coord_or f id dflt (points pn) = dflt).
Proof.
  intros Hr Hin.
  destruct (reachable_markers pn Hr)
    as (s & b & g & w & i & pp & r & E & Hs & Hb & Hf & Hw & Hi & Hp & Hrs).
  rewrite E.
  assert (Hfind : exists p, In p [s; b; g; w; i; pp; r] /\ p_id p = id
                            /\ find_point id [s; b; g; w; i; pp; r] = Some p).
  { unfold marker_ids in Hin. simpl in Hin.
    destruct Hin as [<-|[<-|[<-|[<-|[<-|[<-|[<-|[]]]]]]]];
      [exists s | exists b | exists g | exists w | exists i | exists pp
       | exists r];
      (split; [simpl; tauto|]); (split; [assumption|]);
      unfold find_point; simpl; rewrite Hs, Hb, Hf, Hw, Hi, Hp, Hrs;
      reflexivity. }
  destruct Hfind as (p & Hp1 & Hp2 & Hp3).
  exists p. split; [exact Hp1|]. split; [exact Hp2|].
  unfold coord_or. rewrite Hp3. split.
  - intros H. apply truthy_iff in H. rewrite H. reflexivity.
  - intros H. destruct (JS.truthy (f p)) eqn:Et; [|reflexivity].
    apply truthy_iff in Et. contradiction.
Qed.

Lemma X15_shapes_follow_markers_witness :
  fst (grip_pad (points wrist_at_edge)) = 330
  /\ snd (grip_pad (points wrist_at_edge)) == 200
  /\ fst (grip_pad (points init)) = 330.
Proof.
  destruct (X15_shapes_follow_markers wrist_at_edge p_x "wrist" 330
              wrist_at_edge_reachable) as (p & Hin & Hid & _ & Hzero).
  { simpl. tauto. }
  split; [|split; reflexivity].
  unfold grip_pad. cbn [fst]. apply Hzero.
  simpl in Hin.
  repeat (destruct Hin as [<-|Hin]; [try discriminate Hid|]);
    try contradiction.
  reflexivity.
Defined.

End LayoutMoreProofs.

(** * Further properties of the CSV exporter *)
Module CsvMoreProofs.
Import JS Csv CsvMore CsvProofs.

Lemma commas_append a b : commas (a +:+ b) = (commas a + commas b)%nat.
Proof.
  induction a as [|c a IH]; [reflexivity|].
  rewrite append_cons. simpl. rewrite IH. lia.
Qed.

Lemma commas_join xs :
  commas (join "," xs)
  = (length xs - 1 + sum_list (map commas xs))%nat.
Proof.
  induction xs as [|x rest IH]; [reflexivity|].
  destruct rest as [|y rest]; [simpl; lia|].
  rewrite join_cons2, !commas_append, IH. simpl. lia.
Qed.

(** X16: exportCSV neither quotes nor escapes.  A data line has as many
    commas as it has separators (one less than the row has cells) plus the
    commas found inside its cells, and likewise the header with the keys:
    a cell holding a comma, such as the coach message "Slow down, lengthen
    exhale", gives a line with more fields than the header announces. *)
Theorem X16_commas_are_not_escaped r rs :
  commas (header_of (r :: rs))
  = (length r - 1 + sum_list (map commas (Object_keys r)))%nat
  /\ (forall x,
        commas (line_of x)
        = (length x - 1
           + sum_list (map (fun kv => commas (to_text (snd kv))) x))%nat).
Proof.
  split.
  - unfold header_of. rewrite commas_join. unfold Object_keys.
    rewrite length_map. reflexivity.
  - intros x. unfold line_of. rewrite commas_join. unfold Object_values.
    rewrite !length_map, !map_map. reflexivity.
Qed.

Lemma X16_commas_are_not_escaped_witness :
  exists r, slow_rows = [r]
    /\ commas (header_of [r]) = 7%nat /\ commas (line_of r) = 8%nat.
Proof.
  eexists. split; [reflexivity|].
  match goal with |- commas (header_of [?r]) = _ /\ _ =>
    destruct (X16_commas_are_not_escaped r []) as [Hh Hl];
    split; [rewrite Hh | rewrite Hl]; reflexivity
  end.
Defined.

End CsvMoreProofs.

(** * Further properties of the canvas stand-in *)
Module ThreeMoreProofs.
Import JS Three ThreeMore ThreeProofs.

(** *** The canvas state stack *)

Lemma depth_after_app l1 l2 d :
  depth_after (l1 ++ l2) d
  = match depth_after l1 d with
    | Some d' => depth_after l2 d'
    | None => None
    end.
Proof.
  revert d. induction l1 as [|c l1 IH]; intros d; [reflexivity|].
  destruct c; simpl; try apply IH.
  destruct d; [reflexivity | apply IH].
Qed.

Lemma depth_after_place p r d : depth_after (place p r) d = Some d.
Proof.
  unfold place. destruct (truthy (e_z r)), (truthy (e_x r)), (truthy (e_y r));
    reflexivity.
Qed.

Lemma depth_after_draw_mesh g m d : depth_after (draw_mesh g m) d = Some d.
Proof. reflexivity. Qed.

Lemma depth_after_concat (f : Object3D -> list call) ch :
  Forall (fun o => forall d, depth_after (f o) d = Some d) ch ->
  forall d, depth_after (concat (map f ch)) d = Some d.
Proof.
  induction 1 as [|o ch Ho _ IH]; intros d; [reflexivity|].
  simpl. rewrite depth_after_app, Ho. apply IH.
Qed.

Lemma depth_after_drawObject o : forall d, depth_after (drawObject o) d = Some d.
Proof.
  induction o as [k p r v ch IH] using Object3D_ind. intros d.
  destruct v; [|reflexivity].
  rewrite drawObject_visible.
  change ([save] ++ ?l) with (save :: l). cbn [depth_after].
  rewrite depth_after_app, depth_after_place.
  rewrite depth_after_app.
  assert (Hk : depth_after
                 match k with KMesh g m => draw_mesh g m | KOther => [] end
                 (S d) = Some (S d))
    by (destruct k; reflexivity).
  rewrite Hk, depth_after_app, (depth_after_concat drawObject ch IH).
  reflexivity.
Qed.

(** X17: drawing leaves the canvas state stack as it found it.  Every
    [save] made while drawing an object, or a whole scene, is undone by a
    matching [restore], and no [restore] is issued without a [save] before
    it: whatever the scene, the depth after the run is the depth before. *)
Theorem X17_save_restore_balanced rd scene o d :
  depth_after (drawObject o) d = Some d
  /\ depth_after (render rd scene) d = Some d.
Proof.
  split; [apply depth_after_drawObject|].
  unfold render. destruct (negb (has_ctx rd)); [reflexivity|].
  cbn [app depth_after].
  rewrite depth_after_app, (depth_after_concat drawObject).
  - reflexivity.
  - apply Forall_forall. intros x _. apply depth_after_drawObject.
Qed.

Lemma X17_save_restore_balanced_witness :
  length (List.filter (fun c => match c with save => true | _ => false end)
            (render demo_renderer demo_scene)) = 3%nat
  /\ depth_after (render demo_renderer demo_scene) 0 = Some 0%nat.
Proof.
  split; [reflexivity|].
  exact (proj2 (X17_save_restore_balanced demo_renderer demo_scene
                  demo_scene 0)).
Defined.

(** *** Adding to a scene *)

(** X18: adding an object to a scene changes nothing of what was drawn
    before: the calls of the next render are those of the previous one with
    the calls drawing the new object put just before the closing
    [restore], so that later children paint over earlier ones.  Adding an
    object flagged invisible leaves the render unchanged. *)
Theorem X18_add_draws_last rd scene c :
  has_ctx rd = true ->
  (exists body,
      render rd scene = body ++ [restore]
      /\ render rd (add scene c) = body ++ drawObject c ++ [restore])
  /\ (visible c = false -> render rd (add scene c) = render rd scene).
Proof.
  intros Hctx.
  assert (Hadd : children (add scene c) = children scene ++ [c])
    by (destruct scene; reflexivity).
  assert (E : render rd (add scene c)
              = ([clearRect 0 0 (dom_width rd) (dom_height rd); save;
                  translate (dom_width rd / 2) (dom_height rd * (6 # 10))]
                 ++ concat (map drawObject (children scene)))
                ++ drawObject c ++ [restore]).
  { rewrite (render_with_context rd (add scene c) Hctx), Hadd.
    rewrite map_app, concat_app. simpl. rewrite app_nil_r.
    rewrite <- !app_assoc. reflexivity. }
  split.
  - eexists. split; [|exact E].
    rewrite (render_with_context rd scene Hctx), <- !app_assoc. reflexivity.
  - intros Hv. rewrite E, (drawObject_hidden c Hv).
    rewrite (render_with_context rd scene Hctx), <- !app_assoc. reflexivity.
Qed.

Lemma X18_add_draws_last_witness :
  render demo_renderer (add demo_scene (demo_mesh 16347926 true))
  = removelast (render demo_renderer demo_scene)
    ++ drawObject (demo_mesh 16347926 true) ++ [restore]
  /\ render demo_renderer (add demo_scene (demo_mesh 16347926 false))
     = render demo_renderer demo_scene.
Proof.
  destruct (X18_add_draws_last demo_renderer demo_scene
              (demo_mesh 16347926 true) eq_refl)
    as [(body & Hb & Hadd) _].
  destruct (X18_add_draws_last demo_renderer demo_scene
              (demo_mesh 16347926 false) eq_refl) as [_ Hhid].
  split; [|exact (Hhid eq_refl)].
  rewrite Hadd, Hb, removelast_last. reflexivity.
Defined.

(** *** Colours as text and back *)

Lemma all_hex_append a b : all_hex (a +:+ b) = all_hex a && all_hex b.
Proof.
  induction a as [|c a IH]; [reflexivity|].
  rewrite CsvProofs.append_cons. simpl. destruct (hex_val c); [exact IH|].
  reflexivity.
Qed.

Lemma all_hex_zeros k : all_hex (zeros k) = true.
Proof. induction k; [reflexivity | exact IHk]. Qed.

Lemma all_hex_uint d :
  all_hex (HexadecimalString.NilEmpty.string_of_uint d) = true.
Proof. induction d; simpl; assumption || reflexivity. Qed.

Lemma hex_digits_acc d : forall p,
  hex_digits (HexadecimalString.NilEmpty.string_of_uint d) (Some (Npos p))
  = Some (Npos (Pos.of_hex_uint_acc d p)).
Proof.
  induction d; intros p; simpl; try reflexivity;
    match goal with
    | |- hex_digits _ (Some ?x) = Some (Npos (Pos.of_hex_uint_acc _ ?q)) =>
        replace x with (Npos q) by lia; apply IHd
    end.
Qed.

Lemma hex_digits_zero d :
  hex_digits (HexadecimalString.NilEmpty.string_of_uint d) (Some 0%N)
  = Some (N.of_hex_uint d).
Proof.
  induction d; simpl; try reflexivity; try exact IHd; apply hex_digits_acc.
Qed.

Lemma hex_digits_start s :
  s <> "" -> all_hex s = true ->
  hex_digits s None = hex_digits s (Some 0%N).
Proof.
  destruct s as [|a s]; [congruence|]. intros _ H. simpl in *.
  destruct (hex_val a); [reflexivity | discriminate].
Qed.

Lemma hex_digits_zeros k s :
  hex_digits (zeros k +:+ s) (Some 0%N) = hex_digits s (Some 0%N).
Proof. induction k; [reflexivity | exact IHk]. Qed.

(** A non-empty text of base-16 digits has no white space, sign or [0x]
    to skip. *)
Lemma parseInt16_digits s :
  s <> "" -> all_hex s = true ->
  parseInt16 s = option_map Z.of_N (hex_digits s (Some 0%N)).
Proof.
  intros Hne Hall. rewrite <- (hex_digits_start s Hne Hall).
  destruct s as [|a s]; [congruence|].
  destruct a as [[|] [|] [|] [|] [|] [|] [|] [|]]; try discriminate Hall;
    try (unfold parseInt16; simpl;
         match goal with |- context [hex_digits s ?acc] =>
           destruct (hex_digits s acc); reflexivity
         end).
  destruct s as [|b s]; [reflexivity|].
  destruct b as [[|] [|] [|] [|] [|] [|] [|] [|]]; try discriminate Hall;
    unfold parseInt16; simpl;
    match goal with |- context [hex_digits s ?acc] =>
      destruct (hex_digits s acc); reflexivity
    end.
Qed.

Lemma hex_of_N_digits n :
  hex_of_N n <> "" /\ all_hex (hex_of_N n) = true
  /\ hex_digits (hex_of_N n) (Some 0%N) = Some n.
Proof.
  unfold hex_of_N, HexadecimalString.NilZero.string_of_uint.
  pose proof (HexadecimalN.Unsigned.of_to n) as Hn.
  destruct (N.to_hex_uint n) as [|u|u|u|u|u|u|u|u|u|u|u|u|u|u|u|u];
    cbv iota; rewrite <- Hn.
  - repeat split. discriminate.
  - split; [discriminate|]. split; [apply (all_hex_uint (Hexadecimal.D0 u))|].
    apply hex_digits_zero.
  - split; [discriminate|]. split; [apply (all_hex_uint (Hexadecimal.D1 u))|].
    apply hex_digits_zero.
  - split; [discriminate|]. split; [apply (all_hex_uint (Hexadecimal.D2 u))|].
    apply hex_digits_zero.
  - split; [discriminate|]. split; [apply (all_hex_uint (Hexadecimal.D3 u))|].
    apply hex_digits_zero.
  - split; [discriminate|]. split; [apply (all_hex_uint (Hexadecimal.D4 u))|].
    apply hex_digits_zero.
  - split; [discriminate|]. split; [apply (all_hex_uint (Hexadecimal.D5 u))|].
    apply hex_digits_zero.
  - split; [discriminate|]. split; [apply (all_hex_uint (Hexadecimal.D6 u))|].
    apply hex_digits_zero.
  - split; [discriminate|]. split; [apply (all_hex_uint (Hexadecimal.D7 u))|].
    apply hex_digits_zero.
  - split; [discriminate|]. split; [apply (all_hex_uint (Hexadecimal.D8 u))|].
    apply hex_digits_zero.
  - split; [discriminate|]. split; [apply (all_hex_uint (Hexadecimal.D9 u))|].
    apply hex_digits_zero.
  - split; [discriminate|]. split; [apply (all_hex_uint (Hexadecimal.Da u))|].
    apply hex_digits_zero.
  - split; [discriminate|]. split; [apply (all_hex_uint (Hexadecimal.Db u))|].
    apply hex_digits_zero.
  - split; [discriminate|]. split; [apply (all_hex_uint (Hexadecimal.Dc u))|].
    apply hex_digits_zero.
  - split; [discriminate|]. split; [apply (all_hex_uint (Hexadecimal.Dd u))|].
    apply hex_digits_zero.
  - split; [discriminate|]. split; [apply (all_hex_uint (Hexadecimal.De u))|].
    apply hex_digits_zero.
  - split; [discriminate|]. split; [apply (all_hex_uint (Hexadecimal.Df u))|].
    apply hex_digits_zero.
Qed.

(** X19: a colour written by [colorToCss] reads back as itself: for every
    non-negative integer [n], [new Color(colorToCss(n)).getHex()] is [n]
    (the padding zeros and the leading [#] are undone by the parse). *)
Theorem X19_color_round_trip (n : N) :
  getHex (Color (Some (ArgText (colorToCss n)))) = Num (Z.of_N n).
Proof.
  destruct (hex_of_N_digits n) as (Hne & Hall & Hval).
  unfold getHex, colorToCss, Color.
  change ("#" +:+ padStart6 (hex_of_N n))
    with (String "#" (padStart6 (hex_of_N n))).
  cbv iota.
  assert (Hp : parseInt16 (padStart6 (hex_of_N n)) = Some (Z.of_N n)).
  { rewrite parseInt16_digits.
    - unfold padStart6. rewrite hex_digits_zeros, Hval. reflexivity.
    - unfold padStart6. destruct (zeros _) eqn:E.
      + exact Hne.
      + discriminate.
    - unfold padStart6. rewrite all_hex_append, all_hex_zeros. exact Hall. }
  rewrite Hp. reflexivity.
Qed.

Lemma X19_color_round_trip_witness :
  colorToCss 2705%N = "#000a91"
  /\ getHex (Color (Some (ArgText "#000a91"))) = Num 2705.
Proof.
  split; [reflexivity|].
  exact (X19_color_round_trip 2705%N).
Defined.

(** *** The animation loop *)

Lemma cancel_pending_clears a :
  one_pending a ->
  waiting (cancel_pending a) = []
  /\ next_id (cancel_pending a) = next_id (a_frames a).
Proof.
  intros (Hpos & Hw & Hf). unfold cancel_pending.
  destruct Hw as [Hw | (id & f & Hw & Hfr & Hl & Hid)].
  - destruct (a_frame a) as [id|]; [|split; [exact Hw | reflexivity]].
    destruct (Nat.eqb id 0); [split; [exact Hw | reflexivity]|].
    unfold cancelAnimationFrame. simpl. rewrite Hw. split; reflexivity.
  - rewrite Hfr. destruct (Nat.eqb_spec id 0) as [E|E]; [lia|].
    unfold cancelAnimationFrame. simpl. rewrite Hw. simpl.
    rewrite Nat.eqb_refl. split; reflexivity.
Qed.

Lemma setAnimationLoop_some f a :
  one_pending a ->
  let a' := setAnimationLoop (Some f) a in
  waiting (a_frames a') = [(next_id (a_frames a), f)]
  /\ a_called a' = a_called a /\ one_pending a'.
Proof.
  intros Hinv. destruct (cancel_pending_clears a Hinv) as [Hw Hn].
  pose proof Hinv as (Hpos & _ & _).
  cbv zeta. unfold setAnimationLoop, requestAnimationFrame.
  cbn [a_frames a_called waiting next_id a_frame a_loop].
  rewrite Hw, Hn. cbn [app]. split; [reflexivity|]. split; [reflexivity|].
  unfold one_pending. cbn [a_frames a_called waiting next_id a_frame a_loop].
  split; [lia|]. split.
  - right. exists (next_id (a_frames a)), f. repeat split; lia.
  - intros id [= <-]. lia.
Qed.

Lemma loop_stopped a :
  one_pending a ->
  (let a' := setAnimationLoop None a in
   waiting (a_frames a') = [] /\ a_called a' = a_called a /\ one_pending a')
  /\ (let a' := dispose a in
      waiting (a_frames a') = [] /\ a_called a' = a_called a
      /\ one_pending a').
Proof.
  intros Hinv. destruct (cancel_pending_clears a Hinv) as [Hw Hn].
  destruct Hinv as (Hpos & _ & Hf).
  split; cbv zeta; unfold setAnimationLoop, dispose, one_pending;
    cbn [a_frames a_called waiting next_id a_frame a_loop];
    rewrite Hw, Hn; repeat split; auto.
Qed.

Lemma run_frame_idle a :
  one_pending a -> waiting (a_frames a) = [] ->
  waiting (a_frames (run_frame a)) = []
  /\ a_called (run_frame a) = a_called a /\ one_pending (run_frame a).
Proof.
  intros (Hpos & _ & Hf) Hw. unfold run_frame. rewrite Hw. simpl.
  repeat split; auto.
Qed.

Lemma run_frame_looping a id f :
  one_pending a -> waiting (a_frames a) = [(id, f)] ->
  waiting (a_frames (run_frame a)) = [(next_id (a_frames a), f)]
  /\ a_called (run_frame a) = a_called a ++ [f]
  /\ one_pending (run_frame a).
Proof.
  intros (Hpos & Hw' & Hf) Hw.
  destruct Hw' as [Hw' | (id' & f' & Hw' & Hfr & Hl & Hid)];
    [congruence|].
  rewrite Hw in Hw'. injection Hw' as <- <-.
  unfold run_frame. rewrite Hw. simpl.
  split; [reflexivity|]. split; [reflexivity|].
  unfold one_pending. simpl. split; [lia|]. split.
  - right. exists (next_id (a_frames a)), f. repeat split; try lia.
    exact Hl.
  - intros i [= <-]. lia.
Qed.

Lemma anim_step_one_pending op a :
  one_pending a -> one_pending (anim_step op a).
Proof.
  intros Hinv. destruct op as [[f|]| |]; simpl.
  - apply (setAnimationLoop_some f a Hinv).
  - apply (proj1 (loop_stopped a Hinv)).
  - pose proof Hinv as (_ & [Hw | (id & f & Hw & _)] & _).
    + apply (run_frame_idle a Hinv Hw).
    + apply (run_frame_looping a id f Hinv Hw).
  - apply (proj2 (loop_stopped a Hinv)).
Qed.

Lemma anim_run_one_pending ops : forall a,
  one_pending a -> one_pending (anim_run ops a).
Proof.
  induction ops as [|op ops IH]; intros a Hinv; [exact Hinv|].
  apply (IH (anim_step op a)), anim_step_one_pending, Hinv.
Qed.

Lemma anim_init_one_pending : one_pending anim_init.
Proof.
  unfold one_pending, anim_init. simpl. split; [lia|].
  split; [left; reflexivity | discriminate].
Qed.

Lemma anim_run_app ops1 ops2 a :
  anim_run (ops1 ++ ops2) a = anim_run ops2 (anim_run ops1 a).
Proof. unfold anim_run. apply fold_left_app. Qed.

Lemma frames_idle k : forall a,
  one_pending a -> waiting (a_frames a) = [] ->
  a_called (anim_run (repeat Frame k) a) = a_called a.
Proof.
  induction k as [|k IH]; intros a Hinv Hw; [reflexivity|].
  destruct (run_frame_idle a Hinv Hw) as (Hw' & Hc & Hinv').
  change (anim_run (repeat Frame (S k)) a)
    with (anim_run (repeat Frame k) (run_frame a)).
  rewrite (IH _ Hinv' Hw'). exact Hc.
Qed.

Lemma frames_looping k : forall a id f,
  one_pending a -> waiting (a_frames a) = [(id, f)] ->
  a_called (anim_run (repeat Frame k) a) = a_called a ++ repeat f k.
Proof.
  induction k as [|k IH]; intros a id f Hinv Hw.
  - simpl. rewrite app_nil_r. reflexivity.
  - destruct (run_frame_looping a id f Hinv Hw) as (Hw' & Hc & Hinv').
    change (anim_run (repeat Frame (S k)) a)
      with (anim_run (repeat Frame k) (run_frame a)).
    rewrite (IH _ _ f Hinv' Hw'), Hc, <- app_assoc. reflexivity.
Qed.

(** X20: whatever sequence of [setAnimationLoop], [dispose] and browser
    frames a fresh renderer goes through, at most one frame request of its
    own is outstanding, and that request is the one it remembers in
    [_frame], for the function it remembers in [_loop]: loops never pile
    up. *)
Theorem X20_one_frame_request ops :
  let a := anim_run ops anim_init in
  (length (waiting (a_frames a)) <= 1)%nat
  /\ (forall id f, In (id, f) (waiting (a_frames a)) ->
        a_frame a = Some id /\ a_loop a = Some f).
Proof.
  cbv zeta.
  pose proof (anim_run_one_pending ops anim_init anim_init_one_pending)
    as (_ & [Hw | (id & f & Hw & Hfr & Hl & _)] & _); rewrite Hw.
  - split; [simpl; lia | intros ? ? []].
  - split; [simpl; lia|].
    intros id' f' [[= <- <-] | []]. split; assumption.
Qed.

Lemma X20_one_frame_request_witness :
  waiting (a_frames (anim_run [SetLoop (Some 1%nat); Frame;
                               SetLoop (Some 2%nat); Frame] anim_init))
  = [(4%nat, 2%nat)]
  /\ a_loop (anim_run [SetLoop (Some 1%nat); Frame;
                       SetLoop (Some 2%nat); Frame] anim_init) = Some 2%nat.
Proof.
  split; [reflexivity|].
  exact (proj2 (proj2 (X20_one_frame_request
                         [SetLoop (Some 1%nat); Frame;
                          SetLoop (Some 2%nat); Frame])
                        4%nat 2%nat (or_introl eq_refl))).
Defined.

(** X21: after [setAnimationLoop(f)] the browser's next [k] frames call
    [f] exactly [k] times and nothing else, whatever loop ran before;
    after [setAnimationLoop(null)] or [dispose()] no frame calls anything
    any more. *)
Theorem X21_loop_runs_once_per_frame ops f k :
  let a := anim_run ops anim_init in
  a_called (anim_run (SetLoop (Some f) :: repeat Frame k) a)
  = a_called a ++ repeat f k
  /\ a_called (anim_run (SetLoop None :: repeat Frame k) a) = a_called a
  /\ a_called (anim_run (Dispose :: repeat Frame k) a) = a_called a.
Proof.
  cbv zeta.
  pose proof (anim_run_one_pending ops anim_init anim_init_one_pending)
    as Hinv.
  set (a := anim_run ops anim_init) in *.
  destruct (setAnimationLoop_some f a Hinv) as (Hw1 & Hc1 & Hi1).
  destruct (loop_stopped a Hinv) as [(Hw2 & Hc2 & Hi2) (Hw3 & Hc3 & Hi3)].
  split; [|split].
  - change (anim_run (SetLoop (Some f) :: repeat Frame k) a)
      with (anim_run (repeat Frame k) (setAnimationLoop (Some f) a)).
    rewrite (frames_looping k _ _ f Hi1 Hw1), Hc1. reflexivity.
  - change (anim_run (SetLoop None :: repeat Frame k) a)
      with (anim_run (repeat Frame k) (setAnimationLoop None a)).
    rewrite (frames_idle k _ Hi2 Hw2). exact Hc2.
  - change (anim_run (Dispose :: repeat Frame k) a)
      with (anim_run (repeat Frame k) (dispose a)).
    rewrite (frames_idle k _ Hi3 Hw3). exact Hc3.
Qed.

Lemma X21_loop_runs_once_per_frame_witness :
  a_called (anim_run ([SetLoop (Some 1%nat); Frame; Frame]
                      ++ SetLoop (Some 2%nat) :: repeat Frame 3) anim_init)
  = [1; 1; 2; 2; 2]%nat.
Proof.
  rewrite anim_run_app.
  exact (proj1 (X21_loop_runs_once_per_frame
                  [SetLoop (Some 1%nat); Frame; Frame] 2%nat 3%nat)).
Defined.

End ThreeMoreProofs.

(** * Properties of the pose smoothing *)
Module PoseViewProofs.
Import PoseView.





Lemma steps_succ n current p :
  steps (S n) current p = step current (steps n current p).
Proof.
  revert p. induction n as [|n IH]; intros p; [reflexivity|].
  change (steps (S (S n)) current p) with (steps (S n) current (step current p)).
  rewrite IH. reflexivity.
Qed.

Lemma steps_fingers_length n current p :
  length (fingers (wrist (steps n current p))) = length (fingers (wrist p)).
Proof.
  induction n as [|n IH]; [reflexivity|].
  rewrite steps_succ. cbn [step wrist fingers].
  rewrite length_imap. exact IH.
Qed.



End PoseViewProofs.
